(** * Authentication and session subsystem of the contacts API

    A shallow embedding of [src/services/auth.py], [src/routes/auth.py],
    [src/repository/users.py] and of the rate-limit declarations of
    [src/routes/contacts.py], together with the properties of the
    specification that concern them.

    Conventions.
    - Time is the POSIX clock in whole seconds ([Z]): [jose] writes the
      [iat] and [exp] claims with [timegm(utctimetuple())], which drops the
      sub-second part.  All clock reads of one request see the same second.
    - A Python [dict] is a [gmap string _]; the [users] table is a
      [gmap string User] indexed by its unique, non-null [email] column.
    - Handlers run in a state-and-exception monad [M] over the [World]
      (clock, database, Redis, queued background tasks, I/O log). *)

From stdpp Require Import gmap strings list fin_maps pretty.
From Stdlib Require Import ZArith Lia Ascii.

Open Scope string_scope.
Open Scope Z_scope.

(** ** JSON values carried by token claims

    The claims considered are null, booleans, integers and texts. *)

Inductive jval : Type :=
| JNull
| JBool (b : bool)
| JInt (n : Z)
| JStr (s : string).

#[global] Instance jval_eq_dec : EqDecision jval.
Proof. solve_decision. Defined.

(** Python's [str(x)] on a claim value. *)
Definition py_str (v : jval) : string :=
  match v with
  | JNull => "None"
  | JBool true => "True"
  | JBool false => "False"
  | JInt n => pretty n
  | JStr s => s
  end.

(** ** Python's [int()] on a claim value

    [jose] passes the time claims through [int()].  On a JSON value this
    gives an integer for a number, [0] or [1] for a boolean and the number
    written in a text; it raises [ValueError] for a text that writes no
    number and [TypeError] for [null].  The characters of a [string] are
    code points below 256. *)

Inductive IntResult : Type :=
| IntOk (n : Z)
| IntValueError
| IntTypeError.

Definition code (c : ascii) : Z := Z.of_N (Ascii.N_of_ascii c).

(** The blanks that [int()] skips around a number: tab to carriage
    return, the space, and among the code points from 128 on the next-line
    control and the no-break space. *)
Definition is_space (c : ascii) : bool :=
  ((9 <=? code c) && (code c <=? 13)) || (code c =? 32) ||
  (code c =? 133) || (code c =? 160).

Definition digit (c : ascii) : option Z :=
  if (48 <=? code c) && (code c <=? 57) then Some (code c - 48) else None.

Fixpoint lstrip (s : list ascii) : list ascii :=
  match s with
  | c :: rest => if is_space c then lstrip rest else s
  | [] => []
  end.

Definition strip (s : list ascii) : list ascii :=
  reverse (lstrip (reverse (lstrip s))).

(** Decimal digits with single underscores between them, read from the
    left: the value and the number of digits read so far, and whether the
    last character was a digit.  An underscore is accepted after a digit
    only, and the text has to end in a digit. *)
Fixpoint digits (s : list ascii) (value : Z) (count : nat) (after_digit : bool)
  : option (Z * nat) :=
  match s with
  | [] => if after_digit then Some (value, count) else None
  | c :: rest =>
      match digit c with
      | Some d => digits rest (10 * value + d) (S count) true
      | None =>
          if (code c =? 95) && after_digit
          then digits rest value count false
          else None
      end
  end.

(** The limit of CPython (3.11 and later, default setting) on the digits
    of a text that is converted to an integer. *)
Definition max_str_digits : nat := 4300.

(** [int(s)] for a text: blanks around, an optional sign, the digits.
    [None] is the [ValueError]. *)
Definition int_of_str (s : string) : option Z :=
  let body := strip (String.list_ascii_of_string s) in
  let signed :=
    match body with
    | c :: rest =>
        if code c =? 45 then (-1, rest)
        else if code c =? 43 then (1, rest)
        else (1, body)
    | [] => (1, body)
    end in
  match digits signed.2 0 0 false with
  | Some (n, count) =>
      if (max_str_digits <? count)%nat then None else Some (signed.1 * n)
  | None => None
  end.

Definition py_int (v : jval) : IntResult :=
  match v with
  | JNull => IntTypeError
  | JBool b => IntOk (if b then 1 else 0)
  | JInt n => IntOk n
  | JStr s =>
      match int_of_str s with
      | Some n => IntOk n
      | None => IntValueError
      end
  end.

(** ** The [jose.jwt] interface

    A bearer string is seen through what [jwt.decode] can observe of it:
    either it is not a compact JWS at all, or it carries an algorithm
    header, a claim set, and a signature that verifies under exactly one
    key.  The service signs and verifies with the same secret, that is with
    an HMAC, and the claims are serialised in the order in which the
    service builds them; signing is therefore deterministic, and two tokens
    are the same string exactly when algorithm, key and claims coincide. *)

Inductive Token : Type :=
| Malformed (raw : string)
| JWS (alg : string) (key : string) (claims : gmap string jval).

#[global] Instance Token_eq_dec : EqDecision Token.
Proof. solve_decision. Defined.

Module jwt.

(** What [decode] raises: a [JWTError], as such for a string that is no
    token or a signature that does not verify, and through its subclasses
    [ExpiredSignatureError] and [JWTClaimsError] for the claims; and the
    [TypeError] of [int()], which is no [JWTError]. *)
Inductive Error : Type :=
| DecodeError
| SignatureError
| ExpiredSignatureError
| JWTClaimsError
| TypeError.

(** [isinstance(e, JWTError)], the test of an [except JWTError] clause. *)
Definition is_JWTError (e : Error) : bool :=
  match e with
  | DecodeError | SignatureError | ExpiredSignatureError | JWTClaimsError => true
  | TypeError => false
  end.

(** The outcome of [int(value)] inside [try: ... except ValueError: raise
    JWTClaimsError(...)]. *)
Definition coerce (value : jval) : Error + Z :=
  match py_int value with
  | IntOk n => inr n
  | IntValueError => inl JWTClaimsError
  | IntTypeError => inl TypeError
  end.

Definition encode (claims : gmap string jval) (key algorithm : string) : Token :=
  JWS algorithm key claims.

(** The checks of [_validate_claims] under the default options, with no
    audience, issuer, subject or access token passed to [decode]. *)

(** [_validate_iat]: when present, [iat] is passed through [int()]. *)
Definition validate_iat (claims : gmap string jval) : option Error :=
  match claims !! "iat" with
  | None => None
  | Some value =>
      match coerce value with
      | inr _ => None
      | inl e => Some e
      end
  end.

(** [_validate_nbf] with leeway 0: when present, [int(nbf)] is not in the
    future. *)
Definition validate_nbf (now : Z) (claims : gmap string jval) : option Error :=
  match claims !! "nbf" with
  | None => None
  | Some value =>
      match coerce value with
      | inr nbf => if now <? nbf then Some JWTClaimsError else None
      | inl e => Some e
      end
  end.

(** [_validate_exp] with leeway 0: when present, the token is expired once
    [int(exp) < now]. *)
Definition validate_exp (now : Z) (claims : gmap string jval) : option Error :=
  match claims !! "exp" with
  | None => None
  | Some value =>
      match coerce value with
      | inr exp => if exp <? now then Some ExpiredSignatureError else None
      | inl e => Some e
      end
  end.

(** [_validate_aud] with [audience=None]: no audience claim is acceptable. *)
Definition validate_aud (claims : gmap string jval) : option Error :=
  match claims !! "aud" with
  | None => None
  | Some _ => Some JWTClaimsError
  end.

(** [_validate_sub]: when present, [sub] is a string. *)
Definition validate_sub (claims : gmap string jval) : option Error :=
  match claims !! "sub" with
  | None | Some (JStr _) => None
  | Some _ => Some JWTClaimsError
  end.

(** [_validate_jti]: when present, [jti] is a string. *)
Definition validate_jti (claims : gmap string jval) : option Error :=
  match claims !! "jti" with
  | None | Some (JStr _) => None
  | Some _ => Some JWTClaimsError
  end.

(** [_validate_at_hash] with no access token: no [at_hash] claim is
    acceptable. *)
Definition validate_at_hash (claims : gmap string jval) : option Error :=
  match claims !! "at_hash" with
  | None => None
  | Some _ => Some JWTClaimsError
  end.

(** The first check that fails decides. *)
Definition orelse (a b : option Error) : option Error :=
  match a with
  | Some e => Some e
  | None => b
  end.

Definition validate_claims (now : Z) (claims : gmap string jval) : option Error :=
  orelse (validate_iat claims)
    (orelse (validate_nbf now claims)
       (orelse (validate_exp now claims)
          (orelse (validate_aud claims)
             (orelse (validate_sub claims)
                (orelse (validate_jti claims) (validate_at_hash claims)))))).

(** [jwt.decode(token, key, algorithms=[...])] with default options: the
    algorithm and the signature are checked first, then the claims. *)
Definition decode (now : Z) (token : Token) (key : string) (algorithms : list string)
  : Error + gmap string jval :=
  match token with
  | Malformed _ => inl DecodeError
  | JWS alg k claims =>
      if negb (bool_decide (alg ∈ algorithms)) then inl SignatureError
      else if negb (bool_decide (k = key)) then inl SignatureError
      else match validate_claims now claims with
           | Some e => inl e
           | None => inr claims
           end
  end.

End jwt.

(** ** Exceptions and HTTP statuses *)

Inductive Exn : Type :=
| HTTPException (status_code : Z) (detail : string) (headers : list (string * string))
| KeyError (key : string)
| AttributeError (obj attr : string)
| TypeError (function argument : string).

Definition HTTP_200_OK : Z := 200.
Definition HTTP_400_BAD_REQUEST : Z := 400.
Definition HTTP_401_UNAUTHORIZED : Z := 401.
Definition HTTP_422_UNPROCESSABLE_ENTITY : Z := 422.
Definition HTTP_500_INTERNAL_SERVER_ERROR : Z := 500.

Inductive Res (A : Type) : Type :=
| Ok (a : A)
| Raise (e : Exn).
Arguments Ok {A} a.
Arguments Raise {A} e.

(** The status line the framework sends: 200 for a returned body, the
    status of an [HTTPException], 500 for any other exception. *)
Definition status_of {A} (r : Res A) : Z :=
  match r with
  | Ok _ => HTTP_200_OK
  | Raise (HTTPException s _ _) => s
  | Raise _ => HTTP_500_INTERNAL_SERVER_ERROR
  end.

(** [try: ... except JWTError: raise handler]: a [JWTError] is replaced by
    the exception of the handler; the [TypeError] of [int(None)] is none
    and leaves the [try] statement as it is. *)
Definition except_JWTError (e : jwt.Error) (handler : Exn) : Exn :=
  if jwt.is_JWTError e then handler else TypeError "int" "NoneType".

(** ** The data model ([src/database/models.py]) *)

Record User : Type := mkUser {
  user_id : Z;
  username : string;
  email : string;
  avatar : option string;
  password : string;
  created_at : Z;
  refresh_token : option Token;
  confirmed : bool
}.

#[global] Instance User_eq_dec : EqDecision User.
Proof. solve_decision. Defined.

Definition set_refresh_token (u : User) (t : option Token) : User :=
  mkUser (user_id u) (username u) (email u) (avatar u) (password u) (created_at u)
         t (confirmed u).

Definition set_confirmed (u : User) (b : bool) : User :=
  mkUser (user_id u) (username u) (email u) (avatar u) (password u) (created_at u)
         (refresh_token u) b.

Definition set_password (u : User) (p : string) : User :=
  mkUser (user_id u) (username u) (email u) (avatar u) p (created_at u)
         (refresh_token u) (confirmed u).

(** ** The world the handlers act on *)

(** A Redis string key: the pickled user and the absolute second at which
    the key expires, if a time-to-live was set. *)
Record CacheEntry : Type := mkEntry {
  pickled : User;
  expires_at : option Z
}.

Inductive Task : Type :=
| send_email (to name base_url : string)
| send_reset_password_email (to name base_url : string).

Inductive Event : Type :=
| DbQuery (email : jval)
| DbCommit
| RedisGet (key : string)
| RedisSet (key : string)
| RedisExpire (key : string) (seconds : Z).

Record World : Type := mkWorld {
  clock : Z;
  db : gmap string User;
  r : gmap string CacheEntry;
  background_tasks : list Task;
  log : list Event
}.

Definition with_db (w : World) (d : gmap string User) : World :=
  mkWorld (clock w) d (r w) (background_tasks w) (log w).

Definition with_r (w : World) (c : gmap string CacheEntry) : World :=
  mkWorld (clock w) (db w) c (background_tasks w) (log w).

Definition with_tasks (w : World) (t : list Task) : World :=
  mkWorld (clock w) (db w) (r w) t (log w).

Definition with_log (w : World) (l : list Event) : World :=
  mkWorld (clock w) (db w) (r w) (background_tasks w) l.

Definition at_time (w : World) (t : Z) : World :=
  mkWorld t (db w) (r w) (background_tasks w) (log w).

(** ** The handler monad: state threaded through, exceptions short-circuit *)

Definition M (A : Type) : Type := World → Res A * World.

Definition ret {A} (a : A) : M A := λ w, (Ok a, w).

Definition raise {A} (e : Exn) : M A := λ w, (Raise e, w).

Definition bind {A B} (m : M A) (k : A → M B) : M B :=
  λ w, match m w with
       | (Ok a, w') => k a w'
       | (Raise e, w') => (Raise e, w')
       end.

#[global] Instance M_ret : MRet M := @ret.
#[global] Instance M_bind : MBind M := λ A B k m, bind m k.

Definition datetime_now : M Z := λ w, (Ok (clock w), w).

(** [payload[key]]: a missing key raises [KeyError]. *)
Definition getitem (payload : gmap string jval) (key : string) : M jval :=
  match payload !! key with
  | Some v => ret v
  | None => raise (KeyError key)
  end.

(** ** Redis ([redis.asyncio]) as used by the identity cache *)

Module pickle.
Definition dumps (u : User) : User := u.
Definition loads (b : User) : User := b.
End pickle.

(** Redis drops a key once the clock has passed its expiry; at the
    instant of the expiry itself the key still answers. *)
Definition live (now : Z) (e : CacheEntry) : bool :=
  match expires_at e with
  | Some t => now <=? t
  | None => true
  end.

(** What a key holds at an instant: nothing once it has expired. *)
Definition cache_lookup (now : Z) (key : string) (c : gmap string CacheEntry)
  : option User :=
  match c !! key with
  | Some e => if live now e then Some (pickled e) else None
  | None => None
  end.

(** [GET key]: the value, or [None] for an absent or expired key. *)
Definition redis_get (key : string) : M (option User) :=
  λ w, (Ok (cache_lookup (clock w) key (r w)), with_log w (log w ++ [RedisGet key])).

(** [SET key value]: overwrites and drops any time-to-live. *)
Definition redis_set (key : string) (value : User) : M unit :=
  λ w, (Ok tt, with_log (with_r w (<[key := mkEntry value None]> (r w)))
                        (log w ++ [RedisSet key])).

(** [EXPIRE key seconds]: a key that holds a value expires [seconds] from
    now. *)
Definition redis_expire (key : string) (seconds : Z) : M unit :=
  λ w, let c := match cache_lookup (clock w) key (r w) with
                | Some v => <[key := mkEntry v (Some (clock w + seconds))]> (r w)
                | None => r w
                end in
       (Ok tt, with_log (with_r w c) (log w ++ [RedisExpire key seconds])).

(** ** The SQLAlchemy session *)

(** [db.query(User).filter(User.email == email).first()].  A value that is
    not a string equals no stored address. *)
Definition query_first (email : jval) : M (option User) :=
  λ w, let u := match email with
                | JStr s => db w !! s
                | _ => None
                end in
       (Ok u, with_log w (log w ++ [DbQuery email])).

(** Assigning attributes of a loaded row and [db.commit()]: the row of that
    user is replaced by the modified object. *)
Definition commit (u : User) : M unit :=
  λ w, (Ok tt, with_log (with_db w (<[email u := u]> (db w))) (log w ++ [DbCommit])).

(** Every row is stored under its own address. *)
Definition db_wf (d : gmap string User) : Prop :=
  ∀ k u, d !! k = Some u → email u = k.

(** ** [src/repository/users.py] *)

Module repo_users.

Definition get_user_by_email (email : jval) : M (option User) :=
  query_first email.

(** [user.refresh_token = token; db.commit()] *)
Definition update_token (user : User) (token : option Token) : M unit :=
  commit (set_refresh_token user token).

(** Re-reads the user, sets [confirmed] and commits; assigning an
    attribute of [None] raises [AttributeError]. *)
Definition confirmed_email (email : jval) : M unit :=
  user ← get_user_by_email email;
  match user with
  | None => raise (AttributeError "NoneType" "confirmed")
  | Some user => commit (set_confirmed user true)
  end.

Definition update_password (user : User) (password : string) : M unit :=
  commit (set_password user password).

End repo_users.

(** ** [src/services/auth.py] *)

(** [passlib]'s [CryptContext], an external collaborator. *)
Record CryptContext : Type := mkCryptContext {
  verify : string → string → bool;
  hash : string → string
}.

(** Python truthiness of an [Optional] number. *)
Definition truthy (d : option Z) : bool :=
  match d with
  | Some x => negb (x =? 0)
  | None => false
  end.

Module Auth.

(** The class attributes of [Auth]; [SECRET_KEY] and [ALGORITHM] come from
    the deployment settings. *)
Record t : Type := mk {
  pwd_context : CryptContext;
  SECRET_KEY : string;
  ALGORITHM : string
}.

Section methods.
Variable self : t.

Definition verify_password (plain_password hashed_password : string) : bool :=
  verify (pwd_context self) plain_password hashed_password.

Definition get_password_hash (password : string) : string :=
  hash (pwd_context self) password.

Definition create_access_token (data : gmap string jval) (expires_delta : option Z)
  : M Token :=
  now ← datetime_now;
  let to_encode := data in
  let expire := if truthy expires_delta
                then now + default 0 expires_delta
                else now + 15 * 60 in
  let to_encode :=
    <["scope" := JStr "access_token"]>
      (<["exp" := JInt expire]> (<["iat" := JInt now]> to_encode)) in
  mret (jwt.encode to_encode (SECRET_KEY self) (ALGORITHM self)).

Definition create_refresh_token (data : gmap string jval) (expires_delta : option Z)
  : M Token :=
  now ← datetime_now;
  let to_encode := data in
  let expire := if truthy expires_delta
                then now + default 0 expires_delta
                else now + 7 * 86400 in
  let to_encode :=
    <["scope" := JStr "refresh_token"]>
      (<["exp" := JInt expire]> (<["iat" := JInt now]> to_encode)) in
  mret (jwt.encode to_encode (SECRET_KEY self) (ALGORITHM self)).

Definition decode_refresh_token (refresh_token : Token) : M jval :=
  now ← datetime_now;
  match jwt.decode now refresh_token (SECRET_KEY self) [ALGORITHM self] with
  | inr payload =>
      scope ← getitem payload "scope";
      if bool_decide (scope = JStr "refresh_token")
      then getitem payload "sub"
      else raise (HTTPException HTTP_401_UNAUTHORIZED "Invalid scope for token" [])
  | inl e =>
      raise (except_JWTError e
               (HTTPException HTTP_401_UNAUTHORIZED "Could not validate credentials" []))
  end.

Definition credentials_exception : Exn :=
  HTTPException HTTP_401_UNAUTHORIZED "Could not validate credentials"
                [("WWW-Authenticate", "Bearer")].

(** The [try] block of [get_current_user]: the subject of an access
    token. *)
Definition access_subject (token : Token) : M jval :=
  now ← datetime_now;
  match jwt.decode now token (SECRET_KEY self) [ALGORITHM self] with
  | inr payload =>
      scope ← getitem payload "scope";
      if bool_decide (scope = JStr "access_token")
      then email ← getitem payload "sub";
           if bool_decide (email = JNull)
           then raise credentials_exception
           else mret email
      else raise credentials_exception
  | inl e => raise (except_JWTError e credentials_exception)
  end.

Definition get_current_user (token : Token) : M User :=
  email ← access_subject token;
  user ← redis_get (py_str email);
  match user with
  | None =>
      user ← query_first email;
      match user with
      | None => raise credentials_exception
      | Some user =>
          redis_set (py_str email) (pickle.dumps user);;
          redis_expire (py_str email) 120;;
          mret user
      end
  | Some user => mret (pickle.loads user)
  end.

Definition create_email_token (data : gmap string jval) : M Token :=
  now ← datetime_now;
  let to_encode := data in
  let expire := now + 7 * 86400 in
  let to_encode := <["exp" := JInt expire]> (<["iat" := JInt now]> to_encode) in
  mret (jwt.encode to_encode (SECRET_KEY self) (ALGORITHM self)).

Definition get_email_from_token (token : Token) : M jval :=
  now ← datetime_now;
  match jwt.decode now token (SECRET_KEY self) [ALGORITHM self] with
  | inr payload => getitem payload "sub"
  | inl e =>
      raise (except_JWTError e
               (HTTPException HTTP_422_UNPROCESSABLE_ENTITY
                              "Invalid token for email verification" []))
  end.

End methods.

End Auth.

(** ** [src/routes/auth.py] *)

Record OAuth2PasswordRequestForm : Type := mkForm {
  form_username : string;
  form_password : string
}.

Record RequestEmail : Type := mkRequestEmail {
  body_email : string
}.

Record ResetPasswordModel : Type := mkResetPassword {
  password1 : string;
  password2 : string
}.

Inductive Response : Type :=
| TokenModel (access_token refresh_token : Token) (token_type : string)
| Message (message : string).

Definition add_task (t : Task) : M unit :=
  λ w, (Ok tt, with_tasks w (background_tasks w ++ [t])).

(** Reading an attribute of the result of a query: [None] has none. *)
Definition getattr {A} (user : option User) (attr : string) (field : User → A) : M A :=
  match user with
  | Some u => mret (field u)
  | None => raise (AttributeError "NoneType" attr)
  end.

Module routes.

Section handlers.
Variable auth_service : Auth.t.

Definition login (body : OAuth2PasswordRequestForm) : M Response :=
  user ← repo_users.get_user_by_email (JStr (form_username body));
  match user with
  | None => raise (HTTPException HTTP_401_UNAUTHORIZED "Invalid email" [])
  | Some user =>
      if negb (confirmed user)
      then raise (HTTPException HTTP_401_UNAUTHORIZED "Email not confirmed" [])
      else if negb (Auth.verify_password auth_service (form_password body) (password user))
      then raise (HTTPException HTTP_401_UNAUTHORIZED "Invalid password" [])
      else
        access_token ←
          Auth.create_access_token auth_service {["sub" := JStr (email user)]} None;
        refresh_token ←
          Auth.create_refresh_token auth_service {["sub" := JStr (email user)]} None;
        repo_users.update_token user (Some refresh_token);;
        mret (TokenModel access_token refresh_token "bearer")
  end.

Definition confirmed_email (token : Token) : M Response :=
  email ← Auth.get_email_from_token auth_service token;
  user ← repo_users.get_user_by_email email;
  match user with
  | None => raise (HTTPException HTTP_400_BAD_REQUEST "Verification error" [])
  | Some user =>
      if confirmed user
      then mret (Message "Your email is already confirmed")
      else repo_users.confirmed_email email;;
           mret (Message "Email confirmed")
  end.

Definition request_email (body : RequestEmail) (base_url : string) : M Response :=
  user ← repo_users.get_user_by_email (JStr (body_email body));
  is_confirmed ← getattr user "confirmed" confirmed;
  if (is_confirmed : bool)
  then mret (Message "Your email is already confirmed")
  else
    match user with
    | Some user => add_task (send_email (email user) (username user) base_url)
    | None => mret tt
    end;;
    mret (Message "Check your email for confirmation.").

Definition request_reset_password (body : RequestEmail) (base_url : string)
  : M Response :=
  user ← repo_users.get_user_by_email (JStr (body_email body));
  match user with
  | Some user =>
      add_task (send_reset_password_email (email user) (username user) base_url)
  | None => mret tt
  end;;
  mret (Message "Check your email for confirmation.").

Definition reset_password (body : ResetPasswordModel) (token : Token) : M Response :=
  email ← Auth.get_email_from_token auth_service token;
  user ← repo_users.get_user_by_email email;
  match user with
  | None => raise (HTTPException HTTP_400_BAD_REQUEST "Verification error" [])
  | Some user =>
      if negb (bool_decide (password1 body = password2 body))
      then mret (Message "Passwords do not match!")
      else
        let password := Auth.get_password_hash auth_service (password1 body) in
        repo_users.update_password user password;;
        mret (Message "Password reset successfully")
  end.

Definition refresh_token (token : Token) : M Response :=
  email ← Auth.decode_refresh_token auth_service token;
  user ← repo_users.get_user_by_email email;
  match user with
  | None => raise (AttributeError "NoneType" "refresh_token")
  | Some user =>
      if negb (bool_decide (refresh_token user = Some token))
      then repo_users.update_token user None;;
           raise (HTTPException HTTP_401_UNAUTHORIZED "Invalid refresh token" [])
      else
        access_token ←
          Auth.create_access_token auth_service {["sub" := email]} None;
        refresh_token ←
          Auth.create_refresh_token auth_service {["sub" := email]} None;
        repo_users.update_token user (Some refresh_token);;
        mret (TokenModel access_token refresh_token "bearer")
  end.

End handlers.

End routes.

(** ** [src/routes/contacts.py]: per-route rate limits *)

(** [RateLimiter(times=..., seconds=...)] of [fastapi_limiter]. *)
Record RateLimiter : Type := mkRateLimiter {
  times : Z;
  seconds : Z
}.

Inductive ContactRoute : Type :=
| get_contacts
| search_contacts
| get_upcoming_birthdays
| get_contact
| create_contact
| update_contact
| remove_contact.

(** The [dependencies=[Depends(RateLimiter(...))]] of each decorator. *)
Definition dependencies (route : ContactRoute) : RateLimiter :=
  match route with
  | get_contacts => mkRateLimiter 5 60
  | search_contacts => mkRateLimiter 10 60
  | get_upcoming_birthdays => mkRateLimiter 5 60
  | get_contact => mkRateLimiter 10 60
  | create_contact => mkRateLimiter 2 180
  | update_contact => mkRateLimiter 5 120
  | remove_contact => mkRateLimiter 5 60
  end.

(** ** The rate limiter *)

Module RateLimit.

Record Window : Type := mkWindow {
  count : Z;
  window_expires : Z
}.

(** The counter of a key that is still inside its window. *)
Definition current (now : Z) (key : string * string)
    (store : gmap (string * string) Window) : option Window :=
  match store !! key with
  | Some c => if now <? window_expires c then Some c else None
  | None => None
  end.

(** Modelled from the spec: the limiter itself belongs to the
    [fastapi_limiter] package, of which the sources only hold the call
    [RateLimiter(times, seconds)].  [allow] increments the counter of
    [(client_key, route_key)]; the first call of a window sets the expiry
    [window_seconds] ahead; the call is rejected when the incremented
    count exceeds [max_calls], and the counter is left to expire. *)
Definition allow (now : Z) (client_key route_key : string)
    (max_calls window_seconds : Z) (store : gmap (string * string) Window)
  : bool * gmap (string * string) Window :=
  let key := (client_key, route_key) in
  let c := match current now key store with
           | Some c => mkWindow (count c + 1) (window_expires c)
           | None => mkWindow 1 (now + window_seconds)
           end in
  (bool_decide (count c ≤ max_calls), <[key := c]> store).

(** The limiter of a route applied to a call of one client. *)
Definition call (route : ContactRoute) (route_key client_key : string) (now : Z)
    (store : gmap (string * string) Window) :=
  allow now client_key route_key
        (times (dependencies route)) (seconds (dependencies route)) store.

(** A client calling one route at the given instants, in order. *)
Fixpoint calls (route : ContactRoute) (route_key client_key : string)
    (instants : list Z) (store : gmap (string * string) Window)
  : list bool * gmap (string * string) Window :=
  match instants with
  | [] => ([], store)
  | now :: rest =>
      let '(ok, store') := call route route_key client_key now store in
      let '(oks, store'') := calls route route_key client_key rest store' in
      (ok :: oks, store'')
  end.

End RateLimit.

(** ** Notions used by the statements *)

(** The claims of the tokens the service issues. *)
Definition access_claims (data : gmap string jval) (expire now : Z) : gmap string jval :=
  <["scope" := JStr "access_token"]> (<["exp" := JInt expire]> (<["iat" := JInt now]> data)).

Definition refresh_claims (data : gmap string jval) (expire now : Z) : gmap string jval :=
  <["scope" := JStr "refresh_token"]> (<["exp" := JInt expire]> (<["iat" := JInt now]> data)).

(** The three reasons for which login is refused. *)
Definition login_denied (auth : Auth.t) (body : OAuth2PasswordRequestForm) (w : World)
  : Prop :=
  db w !! form_username body = None ∨
  ∃ u, db w !! form_username body = Some u ∧
       (confirmed u = false ∨
        Auth.verify_password auth (form_password body) (password u) = false).


(** The internal causes for which a bearer token fails verification. *)
Inductive Failure : Type :=
| InvalidSignature
| Expired
| ScopeMismatch.

Definition fails_for (auth : Auth.t) (expected_scope : string) (now : Z)
    (token : Token) (f : Failure) : Prop :=
  let decoded := jwt.decode now token (Auth.SECRET_KEY auth) [Auth.ALGORITHM auth] in
  match f with
  | InvalidSignature => decoded = inl jwt.SignatureError
  | Expired => decoded = inl jwt.ExpiredSignatureError
  | ScopeMismatch =>
      ∃ payload scope, decoded = inr payload ∧ payload !! "scope" = Some scope ∧
                       scope ≠ JStr expected_scope
  end.

(** The detail line with which refresh decoding reports a failure. *)
Definition refresh_failure_detail (f : Failure) : string :=
  match f with
  | ScopeMismatch => "Invalid scope for token"
  | InvalidSignature | Expired => "Could not validate credentials"
  end.

(** The verdicts of [n] further calls inside a window that has already
    counted [c] calls, under the quota [max_calls]. *)
Fixpoint verdicts (max_calls c : Z) (n : nat) : list bool :=
  match n with
  | O => []
  | S n => bool_decide (c + 1 ≤ max_calls) :: verdicts max_calls (c + 1) n
  end.

(** ** A small deployment, for concrete runs *)

Module sample.

Definition pwd_context : CryptContext :=
  mkCryptContext (λ plain hashed, String.eqb (String.append "$" plain) hashed)
                 (λ plain, String.append "$" plain).

Definition auth : Auth.t := Auth.mk pwd_context "secret" "HS256".

(** A confirmed and an unconfirmed user. *)
Definition alice : User :=
  mkUser 1 "alice" "a@b.com" None "$123456789" 900 None true.
Definition bob : User :=
  mkUser 2 "bob" "bob@b.com" None "$123456789" 950 None false.

Definition users : gmap string User :=
  <["bob@b.com" := bob]> {["a@b.com" := alice]}.

(** Second 1000, empty Redis, nothing queued or logged. *)
Definition w0 : World := mkWorld 1000 users ∅ [] [].

Definition form : OAuth2PasswordRequestForm := mkForm "a@b.com" "123456789".

(** The tokens a login of alice at second 1000 yields. *)
Definition access : Token :=
  JWS "HS256" "secret" (access_claims {["sub" := JStr "a@b.com"]} 1900 1000).
Definition refresh : Token :=
  JWS "HS256" "secret" (refresh_claims {["sub" := JStr "a@b.com"]} 605800 1000).

(** The world after that login. *)
Definition w1 : World := (routes.login auth form w0).2.

(** An email token for bob issued at second 1000. *)
Definition email_token : Token :=
  JWS "HS256" "secret"
      (<["exp" := JInt 605800]> (<["iat" := JInt 1000]> {["sub" := JStr "bob@b.com"]})).

(** A token signed with another key, and a signed token without subject
    and scope. *)
Definition forged : Token :=
  JWS "HS256" "guess" (refresh_claims {["sub" := JStr "a@b.com"]} 605800 1000).
Definition bare : Token :=
  JWS "HS256" "secret" {["exp" := JInt 605800]}.

End sample.

(** ** Signing up and the avatar ([src/routes/auth.py], [src/repository/users.py]) *)

Definition HTTP_201_CREATED : Z := 201.
Definition HTTP_404_NOT_FOUND : Z := 404.
Definition HTTP_409_CONFLICT : Z := 409.

(** [schemas.UserModel], the body of a signup. *)
Record UserModel : Type := mkUserModel {
  um_username : string;
  um_email : string;
  um_password : string
}.

(** [schemas.UserDb], the part of a user that the signup response shows. *)
Record UserDb : Type := mkUserDb {
  ud_id : Z;
  ud_username : string;
  ud_email : string;
  ud_created_at : Z
}.

Definition to_UserDb (u : User) : UserDb :=
  mkUserDb (user_id u) (username u) (email u) (created_at u).

(** [schemas.UserResponse]. *)
Record UserResponse : Type := mkUserResponse {
  ur_user : UserDb;
  ur_detail : string
}.


(** [create_user]: a row built from the body, the defaults of the model
    ([confirmed] false, no avatar, no refresh token, [created_at] the
    current time) and the primary key [new_id] that the database assigns.
    The [email] column is unique: when the address is already stored the
    commit raises [IntegrityError], which is the result [None]. *)
Definition create_user (body : UserModel) (new_id : Z) (w : World)
  : option (User * World) :=
  match db w !! um_email body with
  | Some _ => None
  | None =>
      let new_user := mkUser new_id (um_username body) (um_email body) None
                             (um_password body) (clock w) None false in
      Some (new_user,
            with_log (with_db w (<[um_email body := new_user]> (db w)))
                     (log w ++ [DbCommit]))
  end.


(** The [signup] route.  [None] stands for an [IntegrityError] escaping
    from [create_user]. *)
Definition signup (auth_service : Auth.t) (body : UserModel) (base_url : string)
    (new_id : Z) (w : World) : option (Res UserResponse * World) :=
  match repo_users.get_user_by_email (JStr (um_email body)) w with
  | (Raise e, w1) => Some (Raise e, w1)
  | (Ok (Some _), w1) =>
      Some (Raise (HTTPException HTTP_409_CONFLICT "Account already exists" []), w1)
  | (Ok None, w1) =>
      let body := mkUserModel (um_username body) (um_email body)
                    (Auth.get_password_hash auth_service (um_password body)) in
      match create_user body new_id w1 with
      | None => None
      | Some (new_user, w2) =>
          match add_task (send_email (email new_user) (username new_user) base_url) w2 with
          | (_, w3) =>
              Some (Ok (mkUserResponse
                          (to_UserDb new_user)
                          "User successfully created. Check your email for confirmation."),
                    w3)
          end
      end
  end.


(** The most that a handler does to the table when it acts for the
    address [s]: every row stored under another address is left as it is,
    and a row stored under [s] is still there, with the primary key and the
    address it had. *)
Definition touches_only (s : string) (d d' : gmap string User) : Prop :=
  (∀ k, k ≠ s → d' !! k = d !! k) ∧
  (∀ u, d !! s = Some u →
        ∃ u', d' !! s = Some u' ∧ user_id u' = user_id u ∧ email u' = email u).

(** ** Calendar dates ([datetime.date]) *)

Record Date : Type := mkDate {
  year : Z;
  month : Z;
  day : Z
}.

#[global] Instance Date_eq_dec : EqDecision Date.
Proof. solve_decision. Defined.

Definition is_leap (y : Z) : bool :=
  (y mod 4 =? 0) && (negb (y mod 100 =? 0) || (y mod 400 =? 0)).

Definition days_in_month (y m : Z) : Z :=
  if m =? 2 then (if is_leap y then 29 else 28)
  else if (m =? 4) || (m =? 6) || (m =? 9) || (m =? 11) then 30
  else 31.

(** The dates that [date(year, month, day)] accepts. *)
Definition valid_date (d : Date) : bool :=
  (1 <=? year d) && (year d <=? 9999) &&
  (1 <=? month d) && (month d <=? 12) &&
  (1 <=? day d) && (day d <=? days_in_month (year d) (month d)).

(** [d.replace(year=y)]: [None] is the [ValueError] for a day that the
    month of the new year does not have. *)
Definition replace_year (d : Date) (y : Z) : option Date :=
  let d' := mkDate y (month d) (day d) in
  if valid_date d' then Some d' else None.

(** [a <= b] on dates: year, then month, then day. *)
Definition date_le (a b : Date) : bool :=
  if year a =? year b
  then if month a =? month b then day a <=? day b else month a <? month b
  else year a <? year b.

Definition next_day (d : Date) : Date :=
  if day d <? days_in_month (year d) (month d)
  then mkDate (year d) (month d) (day d + 1)
  else if month d <? 12
       then mkDate (year d) (month d + 1) 1
       else mkDate (year d + 1) 1 1.

(** [d + timedelta(days=n)], the date [n] days later. *)
Fixpoint add_days (d : Date) (n : nat) : Date :=
  match n with
  | O => d
  | S n => add_days (next_day d) n
  end.

(** ** Contacts ([src/database/models.py], [src/schemas.py]) *)

Module Contact.
Record t : Type := mk {
  id : Z;
  first_name : string;
  last_name : string;
  email : string;
  phone_number : string;
  birthday : Date;
  additional_info : option string;
  user_id : option Z
}.
End Contact.

Module ContactModel.
Record t : Type := mk {
  first_name : string;
  last_name : string;
  email : string;
  phone_number : string;
  birthday : Date;
  additional_info : option string
}.
End ContactModel.

(** What a repository call that can fail ends in. *)
Inductive Outcome (A : Type) : Type :=
| Returns (a : A)
| Raises (exception : string).
Arguments Returns {A} a.
Arguments Raises {A} exception.

(** Python truthiness of an [Optional[str]]. *)
Definition nonempty (o : option string) : bool :=
  match o with
  | Some s => negb (bool_decide (s = ""))
  | None => false
  end.

(** ** [src/repository/contacts.py]

    The [contacts] table is the list of its rows in the order in which the
    database returns them; [Contact.user == user] compares the [user_id]
    column with the primary key of the user.  [skip] and [limit] are taken
    non-negative. *)

Module rep_contacts.

Definition owned_by (user : User) (c : Contact.t) : bool :=
  bool_decide (Contact.user_id c = Some (user_id user)).

Definition get_contacts (skip limit : nat) (user : User) (table : list Contact.t)
  : list Contact.t :=
  take limit (drop skip (filter (λ c, owned_by user c = true) table)).

Definition matches (contact_id : Z) (user : User) (c : Contact.t) : bool :=
  bool_decide (Contact.id c = contact_id) && owned_by user c.

Definition get_contact (contact_id : Z) (user : User) (table : list Contact.t)
  : option Contact.t :=
  head (filter (λ c, matches contact_id user c = true) table).

(** The [email] column is unique over the whole table: a commit that would
    store an address twice raises [IntegrityError] and stores nothing.
    [new_id] is the primary key that the database assigns. *)
Definition create_contact (body : ContactModel.t) (user : User) (new_id : Z)
    (table : list Contact.t) : Outcome (Contact.t * list Contact.t) :=
  let contact :=
    Contact.mk new_id (ContactModel.first_name body) (ContactModel.last_name body)
               (ContactModel.email body) (ContactModel.phone_number body)
               (ContactModel.birthday body) (ContactModel.additional_info body)
               (Some (user_id user)) in
  if bool_decide (ContactModel.email body ∈ Contact.email <$> table)
  then Raises "IntegrityError"
  else Returns (contact, (table ++ [contact])%list).

Definition update_contact (body : ContactModel.t) (contact_id : Z) (user : User)
    (table : list Contact.t) : Outcome (option Contact.t * list Contact.t) :=
  match get_contact contact_id user table with
  | Some contact =>
      let contact' :=
        Contact.mk (Contact.id contact)
                   (ContactModel.first_name body) (ContactModel.last_name body)
                   (ContactModel.email body) (ContactModel.phone_number body)
                   (ContactModel.birthday body) (ContactModel.additional_info body)
                   (Contact.user_id contact) in
      let others := filter (λ c, Contact.id c ≠ Contact.id contact) table in
      if bool_decide (ContactModel.email body ∈ Contact.email <$> others)
      then Raises "IntegrityError"
      else Returns (Some contact',
                    (λ c, if bool_decide (Contact.id c = Contact.id contact)
                          then contact' else c) <$> table)
  | None => Returns (None, table)
  end.

Definition remove_contact (contact_id : Z) (user : User) (table : list Contact.t)
  : option Contact.t * list Contact.t :=
  match get_contact contact_id user table with
  | Some contact =>
      (Some contact, filter (λ c, Contact.id c ≠ Contact.id contact) table)
  | None => (None, table)
  end.

Definition search_contacts (first_name last_name email : option string) (user : User)
    (table : list Contact.t) : list Contact.t :=
  let contacts := filter (λ c, owned_by user c = true) table in
  let contacts :=
    if nonempty first_name
    then filter (λ c, Some (Contact.first_name c) = first_name) contacts
    else contacts in
  let contacts :=
    if nonempty last_name
    then filter (λ c, Some (Contact.last_name c) = last_name) contacts
    else contacts in
  let contacts :=
    if nonempty email
    then filter (λ c, Some (Contact.email c) = email) contacts
    else contacts in
  contacts.

(** The loop of [get_upcoming_birthdays] over the contacts of the user,
    with the list [result] built so far. *)
Fixpoint upcoming (today : Date) (contacts result : list Contact.t)
  : Outcome (list Contact.t) :=
  match contacts with
  | [] => Returns result
  | contact :: rest =>
      match replace_year (Contact.birthday contact) (year today) with
      | None => Raises "ValueError"
      | Some birthday =>
          if date_le today birthday && date_le birthday (add_days today 7)
          then upcoming today rest (result ++ [contact])%list
          else upcoming today rest result
      end
  end.

Definition get_upcoming_birthdays (today : Date) (user : User)
    (table : list Contact.t) : Outcome (list Contact.t) :=
  upcoming today (filter (λ c, owned_by user c = true) table) [].

End rep_contacts.

(** ** The handlers of [src/routes/contacts.py], given the resolved user *)

Module contact_routes.

Definition not_found {A} : Res A :=
  Raise (HTTPException HTTP_404_NOT_FOUND "Contact not found" []).

Definition get_contact (contact_id : Z) (current_user : User) (table : list Contact.t)
  : Res Contact.t :=
  match rep_contacts.get_contact contact_id current_user table with
  | None => not_found
  | Some contact => Ok contact
  end.

Definition update_contact (body : ContactModel.t) (contact_id : Z)
    (current_user : User) (table : list Contact.t)
  : Outcome (Res Contact.t * list Contact.t) :=
  match rep_contacts.update_contact body contact_id current_user table with
  | Raises e => Raises e
  | Returns (None, table') => Returns (not_found, table')
  | Returns (Some contact, table') => Returns (Ok contact, table')
  end.

Definition remove_contact (contact_id : Z) (current_user : User)
    (table : list Contact.t) : Res Contact.t * list Contact.t :=
  match rep_contacts.remove_contact contact_id current_user table with
  | (None, table') => (not_found, table')
  | (Some contact, table') => (Ok contact, table')
  end.

End contact_routes.

(** The constraints of the [contacts] table: the primary key and the
    [email] column are unique. *)
Definition table_ok (table : list Contact.t) : Prop :=
  NoDup (Contact.id <$> table) ∧ NoDup (Contact.email <$> table).

(** The row that [update_contact] writes over [contact]. *)
Definition updated (body : ContactModel.t) (contact : Contact.t) : Contact.t :=
  Contact.mk (Contact.id contact)
             (ContactModel.first_name body) (ContactModel.last_name body)
             (ContactModel.email body) (ContactModel.phone_number body)
             (ContactModel.birthday body) (ContactModel.additional_info body)
             (Contact.user_id contact).

(** Whether the anniversary of a contact in the year of [today] falls into
    the week that starts [today]. *)
Definition in_week (today : Date) (c : Contact.t) : bool :=
  match replace_year (Contact.birthday c) (year today) with
  | Some birthday => date_le today birthday && date_le birthday (add_days today 7)
  | None => false
  end.

(** ** More of the small deployment *)

Module sample_more.

(** A refresh token for alice issued one second after her login, and a
    refresh token for an address that nobody registered. *)
Definition later_refresh : Token :=
  JWS "HS256" "secret" (refresh_claims {["sub" := JStr "a@b.com"]} 605801 1001).
Definition ghost_refresh : Token :=
  JWS "HS256" "secret" (refresh_claims {["sub" := JStr "ghost@b.com"]} 605800 1000).

(** Tokens for bob signed with the key of the service whose only time
    claim is [exp]: null, the number 605800 written as a text, a text that
    writes no number, and the boolean true. *)
Definition null_exp : Token :=
  JWS "HS256" "secret" (<["exp" := JNull]> {["sub" := JStr "bob@b.com"]}).
Definition text_exp : Token :=
  JWS "HS256" "secret" (<["exp" := JStr " 605_800 "]> {["sub" := JStr "bob@b.com"]}).
Definition word_exp : Token :=
  JWS "HS256" "secret" (<["exp" := JStr "soon"]> {["sub" := JStr "bob@b.com"]}).
Definition true_exp : Token :=
  JWS "HS256" "secret" (<["exp" := JBool true]> {["sub" := JStr "bob@b.com"]}).


Definition carol : UserModel := mkUserModel "carol" "carol@b.com" "secret1".

Definition carol_token : Token :=
  JWS "HS256" "secret"
      (<["exp" := JInt 605800]> (<["iat" := JInt 1000]> {["sub" := JStr "carol@b.com"]})).

(** Two contacts of alice (primary key 1) and one of bob (primary key 2). *)
Definition ann : Contact.t :=
  Contact.mk 1 "Ann" "Lee" "ann@x.com" "+380123456789" (mkDate 2000 2 29) None (Some 1).
Definition bo : Contact.t :=
  Contact.mk 2 "Bo" "Ray" "bo@x.com" "+380123456780" (mkDate 1990 5 25) None (Some 2).
Definition cy : Contact.t :=
  Contact.mk 3 "Cy" "Fox" "cy@x.com" "+380123456781" (mkDate 1985 5 20)
             (Some "met in Kyiv") (Some 1).

Definition table : list Contact.t := [ann; bo; cy].

Definition dee : ContactModel.t :=
  ContactModel.mk "Dee" "Orr" "dee@x.com" "+380123456782" (mkDate 1999 12 31) None.

End sample_more.

(** * Properties *)

(** Unfolding of the monad operations. *)
Ltac run :=
  repeat (unfold mbind, M_bind, bind, mret, M_ret, ret, raise, getitem, getattr,
            datetime_now, add_task, commit, query_first,
            redis_get, redis_set, redis_expire,
            repo_users.get_user_by_email, repo_users.update_token,
            repo_users.confirmed_email, repo_users.update_password in *;
          cbn [fst snd db r log clock background_tasks
               with_db with_r with_log with_tasks at_time] in *).

(** ** Login *)

(** C4: login answers 401 exactly when the user is absent, unconfirmed, or
    the password does not verify.  Otherwise the answer carries, with type
    bearer, an access and a refresh token signed with the key of the
    service for the address of the user, issued at the current second,
    with scope access_token and expiry 15 minutes ahead, respectively scope
    refresh_token and expiry 7 days ahead; the row of the user holds this
    refresh token afterwards, whatever it held before, with every other
    column as it was, and no other row has changed. *)
Theorem login_unauthorized_iff (auth : Auth.t) (body : OAuth2PasswordRequestForm)
    (w : World) :
  (status_of (routes.login auth body w).1 = HTTP_401_UNAUTHORIZED ↔
   login_denied auth body w) ∧
  (¬ login_denied auth body w →
   ∃ u,
     db w !! form_username body = Some u ∧
     let access :=
       JWS (Auth.ALGORITHM auth) (Auth.SECRET_KEY auth)
           (<["scope" := JStr "access_token"]>
              (<["exp" := JInt (clock w + 900)]>
                 (<["iat" := JInt (clock w)]> {["sub" := JStr (email u)]}))) in
     let refresh :=
       JWS (Auth.ALGORITHM auth) (Auth.SECRET_KEY auth)
           (<["scope" := JStr "refresh_token"]>
              (<["exp" := JInt (clock w + 604800)]>
                 (<["iat" := JInt (clock w)]> {["sub" := JStr (email u)]}))) in
     (routes.login auth body w).1 = Ok (TokenModel access refresh "bearer") ∧
     db (routes.login auth body w).2 !! email u =
       Some (mkUser (user_id u) (username u) (email u) (avatar u) (password u)
                    (created_at u) (Some refresh) (confirmed u)) ∧
     (∀ k, k ≠ email u → db (routes.login auth body w).2 !! k = db w !! k) ∧
     (db_wf (db w) → email u = form_username body)).
Proof.
  unfold login_denied, routes.login, Auth.create_access_token,
    Auth.create_refresh_token.
  run.
  destruct (db w !! form_username body) as [u|] eqn:Hu; cbn.
  - destruct (confirmed u) eqn:Hc; cbn.
    + destruct (Auth.verify_password auth (form_password body) (password u)) eqn:Hv; cbn.
      * split.
        -- split; [discriminate|].
           intros [?|(u' & [= <-] & [?|?])]; congruence.
        -- intros _. exists u. split; [done|]. split; [done|].
           split; [by rewrite lookup_insert_eq|].
           split; [intros k Hk; by rewrite lookup_insert_ne|].
           intros Hwf. by apply Hwf.
      * split.
        -- split; [|reflexivity]. intros _. right. eauto.
        -- intros []. right. eauto.
    + split.
      * split; [|reflexivity]. intros _. right. eauto.
      * intros []. right. eauto.
  - split.
    + split; [|reflexivity]. intros _. by left.
    + intros []. by left.
Qed.

(** ** Token issuance and decoding *)

Section tokens.
Variable auth : Auth.t.

Lemma create_access_token_eq data delta w :
  ∃ expire,
    Auth.create_access_token auth data delta w =
      (Ok (JWS (Auth.ALGORITHM auth) (Auth.SECRET_KEY auth)
               (access_claims data expire (clock w))), w).
Proof. eexists. reflexivity. Qed.

Lemma create_refresh_token_eq data delta w :
  ∃ expire,
    Auth.create_refresh_token auth data delta w =
      (Ok (JWS (Auth.ALGORITHM auth) (Auth.SECRET_KEY auth)
               (refresh_claims data expire (clock w))), w).
Proof. eexists. reflexivity. Qed.

(** A token that decodes is a JWS under the service's algorithm and key,
    and decoding returns its claims unchanged. *)
Lemma decode_inr now token payload :
  jwt.decode now token (Auth.SECRET_KEY auth) [Auth.ALGORITHM auth] = inr payload →
  token = JWS (Auth.ALGORITHM auth) (Auth.SECRET_KEY auth) payload.
Proof.
  destruct token as [raw|alg k claims]; cbn; [discriminate|].
  case_bool_decide as Halg; cbn; [|discriminate].
  case_bool_decide as Hk; cbn; [|discriminate].
  apply list_elem_of_singleton in Halg. subst.
  destruct (jwt.validate_claims now claims); [discriminate|].
  by intros [= ->].
Qed.

Lemma validate_claims_sub now claims :
  jwt.validate_claims now claims = None → jwt.validate_sub claims = None.
Proof.
  unfold jwt.validate_claims.
  destruct (jwt.validate_iat claims); [discriminate|].
  destruct (jwt.validate_nbf now claims); [discriminate|].
  destruct (jwt.validate_exp now claims); [discriminate|].
  destruct (jwt.validate_aud claims); [discriminate|].
  by destruct (jwt.validate_sub claims).
Qed.

(** The subject of a token that decodes is a string. *)
Lemma decode_sub_str now token payload v :
  jwt.decode now token (Auth.SECRET_KEY auth) [Auth.ALGORITHM auth] = inr payload →
  payload !! "sub" = Some v →
  ∃ s, v = JStr s.
Proof.
  destruct token as [raw|alg k claims]; cbn; [discriminate|].
  case_bool_decide; cbn; [|discriminate].
  case_bool_decide; cbn; [|discriminate].
  destruct (jwt.validate_claims now claims) eqn:Hv; [discriminate|].
  apply validate_claims_sub in Hv. unfold jwt.validate_sub in Hv.
  intros [= <-] Hs. rewrite Hs in Hv.
  destruct v; try discriminate. eauto.
Qed.

(** Whatever the instant, decoding either fails or returns the claims of
    the token. *)
Lemma decode_JWS now alg k claims key algs :
  (∃ e, jwt.decode now (JWS alg k claims) key algs = inl e) ∨
  jwt.decode now (JWS alg k claims) key algs = inr claims.
Proof.
  cbn.
  case_bool_decide; cbn; [|eauto].
  case_bool_decide; cbn; [|eauto].
  destruct (jwt.validate_claims now claims); eauto.
Qed.

(** The time claims of a claim set that validates at one instant are
    numbers: at another instant the set validates again or is refused
    with a [JWTError]. *)
Lemma validate_claims_again now t claims :
  jwt.validate_claims now claims = None →
  jwt.validate_claims t claims = None ∨
  ∃ e, jwt.validate_claims t claims = Some e ∧ jwt.is_JWTError e = true.
Proof.
  unfold jwt.validate_claims.
  destruct (jwt.validate_iat claims); [discriminate|]. cbn.
  unfold jwt.validate_nbf, jwt.validate_exp.
  destruct (claims !! "nbf") as [nbf|]; cbn.
  - destruct (jwt.coerce nbf) as [e|n]; [discriminate|].
    destruct (now <? n); [discriminate|].
    destruct (t <? n); [eauto|]. cbn.
    destruct (claims !! "exp") as [exp|]; cbn; [|by left].
    destruct (jwt.coerce exp) as [e|x]; [discriminate|].
    destruct (x <? now); [discriminate|].
    destruct (x <? t); [eauto|]. cbn. by left.
  - destruct (claims !! "exp") as [exp|]; cbn; [|by left].
    destruct (jwt.coerce exp) as [e|x]; [discriminate|].
    destruct (x <? now); [discriminate|].
    destruct (x <? t); [eauto|]. cbn. by left.
Qed.

(** A token that decodes at one instant decodes to the same claims at
    another, or is refused there with a [JWTError]. *)
Lemma decode_again now t token payload :
  jwt.decode now token (Auth.SECRET_KEY auth) [Auth.ALGORITHM auth] = inr payload →
  jwt.decode t token (Auth.SECRET_KEY auth) [Auth.ALGORITHM auth] = inr payload ∨
  ∃ e, jwt.decode t token (Auth.SECRET_KEY auth) [Auth.ALGORITHM auth] = inl e ∧
       jwt.is_JWTError e = true.
Proof.
  destruct token as [raw|alg k claims]; cbn; [discriminate|].
  case_bool_decide; cbn; [|discriminate].
  case_bool_decide; cbn; [|discriminate].
  destruct (jwt.validate_claims now claims) eqn:Hv; [discriminate|].
  intros [= <-].
  destruct (validate_claims_again _ t _ Hv) as [->|(e & -> & He)]; eauto.
Qed.

(** Decoding a token that the service signed: only the claims decide. *)
Lemma decode_signed now claims :
  jwt.decode now (JWS (Auth.ALGORITHM auth) (Auth.SECRET_KEY auth) claims)
             (Auth.SECRET_KEY auth) [Auth.ALGORITHM auth] =
    match jwt.validate_claims now claims with
    | Some e => inl e
    | None => inr claims
    end.
Proof.
  cbn. rewrite (bool_decide_eq_true_2 (_ ∈ _)) by (by apply list_elem_of_singleton).
  cbn. by rewrite bool_decide_eq_true_2.
Qed.

(** The checks after the time claims raise nothing but a [JWTError]. *)
Lemma validate_rest_caught claims :
  match jwt.orelse (jwt.validate_aud claims)
          (jwt.orelse (jwt.validate_sub claims)
             (jwt.orelse (jwt.validate_jti claims) (jwt.validate_at_hash claims))) with
  | Some err => jwt.is_JWTError err = true
  | None => True
  end.
Proof.
  unfold jwt.validate_aud, jwt.validate_sub, jwt.validate_jti, jwt.validate_at_hash.
  destruct (claims !! "aud"); cbn; [done|].
  destruct (claims !! "sub") as [[]|]; cbn; try done;
    destruct (claims !! "jti") as [[]|]; cbn; try done;
    by destruct (claims !! "at_hash").
Qed.

(** A claim set whose [iat] and [exp] are numbers, as in every token that
    the service issues: validation ends in the [TypeError] exactly when
    [nbf] is null. *)
Lemma validate_claims_issued now claims i e :
  claims !! "iat" = Some (JInt i) →
  claims !! "exp" = Some (JInt e) →
  match jwt.validate_claims now claims with
  | Some err => jwt.is_JWTError err = negb (bool_decide (claims !! "nbf" = Some JNull))
  | None => claims !! "nbf" ≠ Some JNull
  end.
Proof.
  intros Hiat Hexp. pose proof (validate_rest_caught claims) as Hrest.
  unfold jwt.validate_claims, jwt.validate_iat, jwt.validate_nbf, jwt.validate_exp.
  rewrite Hiat, Hexp. cbn.
  assert (Hexp' : ∀ v, v ≠ JNull →
            match jwt.orelse (if e <? now then Some jwt.ExpiredSignatureError else None)
                    (jwt.orelse (jwt.validate_aud claims)
                       (jwt.orelse (jwt.validate_sub claims)
                          (jwt.orelse (jwt.validate_jti claims)
                             (jwt.validate_at_hash claims)))) with
            | Some err =>
                jwt.is_JWTError err = negb (bool_decide (Some v = Some JNull))
            | None => Some v ≠ Some JNull
            end).
  { intros v Hv. rewrite bool_decide_eq_false_2 by congruence.
    destruct (e <? now); cbn; [done|].
    destruct (jwt.orelse _ _); [done|congruence]. }
  destruct (claims !! "nbf") as [v|]; cbn.
  - unfold jwt.coerce. destruct v as [|b|n|s]; cbn.
    + done.
    + destruct (now <? _); cbn; [done|]. by apply Hexp'.
    + destruct (now <? n); cbn; [done|]. by apply Hexp'.
    + destruct (int_of_str s) as [n|]; cbn; [|done].
      destruct (now <? n); cbn; [done|]. by apply Hexp'.
  - destruct (e <? now); cbn; [done|].
    destruct (jwt.orelse _ _); [done|discriminate].
Qed.

End tokens.

(** ** Resolving the current user *)

Section current_user.
Variable auth : Auth.t.

(** Verifying a bearer token touches neither the stores nor the log. *)
Lemma access_subject_world token w :
  (Auth.access_subject auth token w).2 = w.
Proof.
  unfold Auth.access_subject. run.
  destruct (jwt.decode _ _ _ _) as [err|payload]; [done|].
  destruct (payload !! "scope") as [scope|]; [|done]. cbn.
  case_bool_decide; [|done].
  destruct (payload !! "sub") as [sub|]; [|done]. cbn.
  by case_bool_decide.
Qed.

Lemma access_subject_ok token w e :
  (Auth.access_subject auth token w).1 = Ok e →
  Auth.access_subject auth token w = (Ok e, w).
Proof.
  intros H. pose proof (access_subject_world token w) as Hw.
  destruct (Auth.access_subject auth token w); cbn in *; congruence.
Qed.

(** A verified subject is the string of the [sub] claim of an
    access-scoped token. *)
Lemma access_subject_inv token w e :
  (Auth.access_subject auth token w).1 = Ok e →
  ∃ payload s,
    jwt.decode (clock w) token (Auth.SECRET_KEY auth) [Auth.ALGORITHM auth] = inr payload ∧
    payload !! "scope" = Some (JStr "access_token") ∧
    payload !! "sub" = Some (JStr s) ∧ e = JStr s.
Proof.
  unfold Auth.access_subject. run.
  destruct (jwt.decode _ _ _ _) as [err|payload] eqn:Hd; [done|].
  destruct (payload !! "scope") as [scope|] eqn:Hscope; [|done]. cbn.
  case_bool_decide as Hs; [|done]. subst scope.
  destruct (payload !! "sub") as [sub|] eqn:Hsub; [|done]. cbn.
  case_bool_decide; [done|]. cbn. intros [= ->].
  destruct (decode_sub_str auth _ _ _ _ Hd Hsub) as [s ->].
  eauto 10.
Qed.

(** When the token does not verify, nothing else happens. *)
Lemma get_current_user_raise token w x :
  (Auth.access_subject auth token w).1 = Raise x →
  Auth.get_current_user auth token w = (Raise x, w).
Proof.
  intros H. unfold Auth.get_current_user. run.
  pose proof (access_subject_world token w) as Hw.
  destruct (Auth.access_subject auth token w) as [[]?]; cbn in *; congruence.
Qed.


End current_user.

(** ** Email confirmation *)

Section confirmation.
Variable auth : Auth.t.

Lemma get_email_from_token_eq token w :
  Auth.get_email_from_token auth token w =
    match jwt.decode (clock w) token (Auth.SECRET_KEY auth) [Auth.ALGORITHM auth] with
    | inr payload =>
        match payload !! "sub" with
        | Some e => (Ok e, w)
        | None => (Raise (KeyError "sub"), w)
        end
    | inl e =>
        (Raise (except_JWTError e
                  (HTTPException HTTP_422_UNPROCESSABLE_ENTITY
                                 "Invalid token for email verification" [])), w)
    end.
Proof.
  unfold Auth.get_email_from_token. run.
  destruct (jwt.decode _ _ _ _) as [err|payload]; [done|].
  by destruct (payload !! "sub").
Qed.

(** The route, once the token has decoded to the address [s]. *)
Lemma confirmed_email_decoded token w payload s :
  jwt.decode (clock w) token (Auth.SECRET_KEY auth) [Auth.ALGORITHM auth] = inr payload →
  payload !! "sub" = Some (JStr s) →
  routes.confirmed_email auth token w =
    match db w !! s with
    | None =>
        (Raise (HTTPException HTTP_400_BAD_REQUEST "Verification error" []),
         with_log w (log w ++ [DbQuery (JStr s)]))
    | Some u =>
        if confirmed u
        then (Ok (Message "Your email is already confirmed"),
              with_log w (log w ++ [DbQuery (JStr s)]))
        else (Ok (Message "Email confirmed"),
              with_log (with_db w (<[email u := set_confirmed u true]> (db w)))
                       (log w ++ [DbQuery (JStr s); DbQuery (JStr s); DbCommit]))
    end.
Proof.
  intros Hd Hs. unfold routes.confirmed_email.
  unfold mbind at 1. unfold M_bind, bind.
  rewrite get_email_from_token_eq, Hd, Hs. run.
  destruct (db w !! s) as [u|] eqn:Hu; [|done].
  destruct (confirmed u); [done|]. cbn.
  rewrite Hu. cbn. by rewrite <- !app_assoc.
Qed.

(** The route keeps every row under its own address. *)
Lemma confirmed_email_wf token w :
  db_wf (db w) → db_wf (db (routes.confirmed_email auth token w).2).
Proof.
  intros Hwf. unfold routes.confirmed_email.
  unfold mbind at 1. unfold M_bind, bind.
  rewrite get_email_from_token_eq.
  destruct (jwt.decode _ _ _ _) as [err|payload]; [done|].
  destruct (payload !! "sub") as [e|]; [|done]. run.
  destruct e as [| | |s]; cbn; try done.
  destruct (db w !! s) as [u|] eqn:Hu; [|done]. cbn.
  destruct (confirmed u); [done|]. cbn. rewrite Hu. cbn.
  intros k u' Hk. destruct (decide (email u = k)) as [<-|Hne].
  - rewrite lookup_insert_eq in Hk. by injection Hk as <-.
  - rewrite lookup_insert_ne in Hk by done. by apply Hwf.
Qed.

(** C6: confirming is idempotent.  For a token whose subject is a stored
    user: when the user is already confirmed the answer is the
    already-confirmed message and database and cache are unchanged; when
    not, the confirmed flag of that user is set; and after either outcome
    a further confirmation at any instant leaves the database as it is,
    answering already-confirmed whenever the token still decodes. *)
Theorem confirmed_email_idempotent (token : Token) (w : World)
    (payload : gmap string jval) (s : string) (u : User) :
  db_wf (db w) →
  jwt.decode (clock w) token (Auth.SECRET_KEY auth) [Auth.ALGORITHM auth] = inr payload →
  payload !! "sub" = Some (JStr s) →
  db w !! s = Some u →
  let first := routes.confirmed_email auth token w in
  (confirmed u = true →
     first.1 = Ok (Message "Your email is already confirmed") ∧
     db first.2 = db w ∧ r first.2 = r w) ∧
  (confirmed u = false →
     first.1 = Ok (Message "Email confirmed") ∧
     db first.2 = <[s := set_confirmed u true]> (db w) ∧ r first.2 = r w) ∧
  (∀ t, let again := routes.confirmed_email auth token (at_time first.2 t) in
        db again.2 = db first.2 ∧
        (∀ payload',
           jwt.decode t token (Auth.SECRET_KEY auth) [Auth.ALGORITHM auth] = inr payload' →
           again.1 = Ok (Message "Your email is already confirmed"))).
Proof.
  intros Hwf Hd Hs Hu first.
  pose proof (Hwf _ _ Hu) as He.
  assert (Hfirst : ∃ u1, db first.2 !! s = Some u1 ∧ confirmed u1 = true).
  { subst first. rewrite (confirmed_email_decoded _ _ _ _ Hd Hs), Hu.
    destruct (confirmed u) eqn:Hc; cbn; [eauto|].
    rewrite He, lookup_insert_eq. eauto. }
  split; [|split].
  - intros Hc. subst first.
    by rewrite (confirmed_email_decoded _ _ _ _ Hd Hs), Hu, Hc.
  - intros Hc. subst first.
    by rewrite (confirmed_email_decoded _ _ _ _ Hd Hs), Hu, Hc, He.
  - intros t again. destruct Hfirst as (u1 & Hu1 & Hc1).
    pose proof (decode_inr auth _ _ _ Hd) as ->.
    destruct (decode_JWS t (Auth.ALGORITHM auth) (Auth.SECRET_KEY auth) payload
                (Auth.SECRET_KEY auth) [Auth.ALGORITHM auth]) as [[err Hd']|Hd'].
    + split.
      * subst again. unfold routes.confirmed_email.
        unfold mbind at 1. unfold M_bind, bind.
        rewrite get_email_from_token_eq. cbn [clock at_time].
        by rewrite Hd'.
      * intros payload'. rewrite Hd'. discriminate.
    + assert (Hagain : again =
                (Ok (Message "Your email is already confirmed"),
                 with_log (at_time first.2 t)
                          (log (at_time first.2 t) ++ [DbQuery (JStr s)]))).
      { subst again.
        rewrite (confirmed_email_decoded _ (at_time first.2 t) payload s); [|done..].
        cbn [db at_time]. by rewrite Hu1, Hc1. }
      rewrite Hagain. split; [done|]. by intros.
Qed.

(** C9 as amended: a token that [jose] refuses with a [JWTError] (no
    token at all, a signature that does not verify, an expired or otherwise
    unacceptable claim) is answered with 422; a token on which decoding
    ends in the [TypeError] of [int(None)] is answered with 500, which is
    the case of every token signed by the service with a null [exp] and no
    other time claim; a token that decodes with a subject is answered with
    a 200 message when the subject is a stored user and with 400 when it is
    not. *)
Theorem confirmed_email_statuses (token : Token) (w : World) :
  let res := (routes.confirmed_email auth token w).1 in
  (∀ claims,
     token = JWS (Auth.ALGORITHM auth) (Auth.SECRET_KEY auth) claims →
     claims !! "iat" = None → claims !! "nbf" = None →
     claims !! "exp" = Some JNull →
     res = Raise (TypeError "int" "NoneType") ∧
     status_of res = HTTP_500_INTERNAL_SERVER_ERROR) ∧
  match jwt.decode (clock w) token (Auth.SECRET_KEY auth) [Auth.ALGORITHM auth] with
  | inl jwt.TypeError =>
      res = Raise (TypeError "int" "NoneType") ∧
      status_of res = HTTP_500_INTERNAL_SERVER_ERROR
  | inl _ =>
      res = Raise (HTTPException HTTP_422_UNPROCESSABLE_ENTITY
                                 "Invalid token for email verification" []) ∧
      status_of res = HTTP_422_UNPROCESSABLE_ENTITY
  | inr payload =>
      ∀ e, payload !! "sub" = Some e →
        ∃ s, e = JStr s ∧
          match db w !! s with
          | Some u =>
              status_of res = HTTP_200_OK ∧
              res = Ok (Message (if confirmed u
                                 then "Your email is already confirmed"
                                 else "Email confirmed"))
          | None =>
              status_of res = HTTP_400_BAD_REQUEST ∧
              res = Raise (HTTPException HTTP_400_BAD_REQUEST "Verification error" [])
          end
  end.
Proof.
  cbn zeta. split.
  { intros claims -> Hiat Hnbf Hexp.
    assert (Hres : routes.confirmed_email auth
                     (JWS (Auth.ALGORITHM auth) (Auth.SECRET_KEY auth) claims) w =
                   (Raise (TypeError "int" "NoneType"), w)).
    { unfold routes.confirmed_email.
      unfold mbind at 1. unfold M_bind, bind.
      rewrite get_email_from_token_eq, decode_signed.
      unfold jwt.validate_claims, jwt.validate_iat, jwt.validate_nbf, jwt.validate_exp.
      by rewrite Hiat, Hnbf, Hexp. }
    by rewrite Hres. }
  destruct (jwt.decode _ _ _ _) as [err|payload] eqn:Hd.
  - assert (Hres : routes.confirmed_email auth token w =
                   (Raise (except_JWTError err
                             (HTTPException HTTP_422_UNPROCESSABLE_ENTITY
                                            "Invalid token for email verification" [])),
                    w)).
    { unfold routes.confirmed_email.
      unfold mbind at 1. unfold M_bind, bind.
      by rewrite get_email_from_token_eq, Hd. }
    rewrite Hres. by destruct err.
  - intros e He.
    destruct (decode_sub_str auth _ _ _ _ Hd He) as [s ->].
    exists s. split; [done|].
    rewrite (confirmed_email_decoded _ _ _ _ Hd He).
    destruct (db w !! s) as [u|]; [|done].
    by destruct (confirmed u).
Qed.

End confirmation.

(** ** Scopes *)

Section scopes.
Variable auth : Auth.t.

Lemma access_subject_eq token w :
  Auth.access_subject auth token w =
    match jwt.decode (clock w) token (Auth.SECRET_KEY auth) [Auth.ALGORITHM auth] with
    | inr payload =>
        match payload !! "scope" with
        | None => (Raise (KeyError "scope"), w)
        | Some scope =>
            if bool_decide (scope = JStr "access_token")
            then match payload !! "sub" with
                 | None => (Raise (KeyError "sub"), w)
                 | Some e => if bool_decide (e = JNull)
                             then (Raise Auth.credentials_exception, w)
                             else (Ok e, w)
                 end
            else (Raise Auth.credentials_exception, w)
        end
    | inl e => (Raise (except_JWTError e Auth.credentials_exception), w)
    end.
Proof.
  unfold Auth.access_subject. run.
  destruct (jwt.decode _ _ _ _) as [err|payload]; [done|].
  destruct (payload !! "scope") as [scope|]; [|done]. cbn.
  case_bool_decide; [|done].
  destruct (payload !! "sub") as [e|]; [|done]. cbn.
  by case_bool_decide.
Qed.

Lemma decode_refresh_token_eq token w :
  Auth.decode_refresh_token auth token w =
    match jwt.decode (clock w) token (Auth.SECRET_KEY auth) [Auth.ALGORITHM auth] with
    | inr payload =>
        match payload !! "scope" with
        | None => (Raise (KeyError "scope"), w)
        | Some scope =>
            if bool_decide (scope = JStr "refresh_token")
            then match payload !! "sub" with
                 | None => (Raise (KeyError "sub"), w)
                 | Some e => (Ok e, w)
                 end
            else (Raise (HTTPException HTTP_401_UNAUTHORIZED
                                       "Invalid scope for token" []), w)
        end
    | inl e =>
        (Raise (except_JWTError e
                  (HTTPException HTTP_401_UNAUTHORIZED
                                 "Could not validate credentials" [])), w)
    end.
Proof.
  unfold Auth.decode_refresh_token. run.
  destruct (jwt.decode _ _ _ _) as [err|payload]; [done|].
  destruct (payload !! "scope") as [scope|]; [|done]. cbn.
  case_bool_decide; [|done].
  by destruct (payload !! "sub").
Qed.

(** C1 as amended: resolving the current user succeeds only on a token
    whose scope claim is access_token, decoding a refresh token only on
    one whose scope claim is refresh_token; an issued access token is
    answered with 401 by refresh decoding at any instant, and an issued
    refresh token with 401 by user resolution; the one token that is not
    answered at all is a token issued over data with a null [nbf], on
    which [int(None)] ends either operation in a [TypeError].  The email
    flows read no scope: an email token is issued without one, and any
    token that decodes is accepted with its subject, whatever scope it
    carries. *)
Theorem scope_checked_for_access_and_refresh :
  (∀ token w user,
     (Auth.get_current_user auth token w).1 = Ok user →
     ∃ claims, token = JWS (Auth.ALGORITHM auth) (Auth.SECRET_KEY auth) claims ∧
               claims !! "scope" = Some (JStr "access_token")) ∧
  (∀ token w e,
     (Auth.decode_refresh_token auth token w).1 = Ok e →
     ∃ claims, token = JWS (Auth.ALGORITHM auth) (Auth.SECRET_KEY auth) claims ∧
               claims !! "scope" = Some (JStr "refresh_token")) ∧
  (∀ data delta w token w',
     (Auth.create_access_token auth data delta w).1 = Ok token →
     status_of (Auth.decode_refresh_token auth token w').1 =
       if bool_decide (data !! "nbf" = Some JNull)
       then HTTP_500_INTERNAL_SERVER_ERROR
       else HTTP_401_UNAUTHORIZED) ∧
  (∀ data delta w token w',
     (Auth.create_refresh_token auth data delta w).1 = Ok token →
     Auth.get_current_user auth token w' =
       (Raise (if bool_decide (data !! "nbf" = Some JNull)
               then TypeError "int" "NoneType"
               else Auth.credentials_exception), w')) ∧
  (∀ data w token,
     data !! "scope" = None →
     (Auth.create_email_token auth data w).1 = Ok token →
     ∃ claims, token = JWS (Auth.ALGORITHM auth) (Auth.SECRET_KEY auth) claims ∧
               claims !! "scope" = None) ∧
  (∀ token w payload e,
     jwt.decode (clock w) token (Auth.SECRET_KEY auth) [Auth.ALGORITHM auth] = inr payload →
     payload !! "sub" = Some e →
     Auth.get_email_from_token auth token w = (Ok e, w)).
Proof.
  repeat apply conj.
  - intros token w user H.
    destruct (Auth.access_subject auth token w) as [[e|x] w1] eqn:Hs.
    + assert (Hs1 : (Auth.access_subject auth token w).1 = Ok e) by by rewrite Hs.
      destruct (access_subject_inv auth _ _ _ Hs1) as (payload & s & Hd & Hscope & _).
      exists payload. split; [|done]. by eapply decode_inr.
    + assert (Hs1 : (Auth.access_subject auth token w).1 = Raise x) by by rewrite Hs.
      rewrite (get_current_user_raise auth _ _ _ Hs1) in H. discriminate.
  - intros token w e. rewrite decode_refresh_token_eq.
    destruct (jwt.decode _ _ _ _) as [err|payload] eqn:Hd; [discriminate|].
    destruct (payload !! "scope") as [scope|] eqn:Hscope; [|discriminate].
    case_bool_decide as Heq; [|discriminate]. subst scope.
    intros _. exists payload. split; [|done]. by eapply decode_inr.
  - intros data delta w token w'.
    destruct (create_access_token_eq auth data delta w) as [expire ->].
    intros [= <-]. rewrite decode_refresh_token_eq, decode_signed.
    pose proof (validate_claims_issued (clock w')
                  (access_claims data expire (clock w)) (clock w) expire) as Hv.
    assert (Hnbf : access_claims data expire (clock w) !! "nbf" = data !! "nbf")
      by (unfold access_claims; by rewrite !lookup_insert_ne).
    rewrite Hnbf in Hv.
    assert (Hiat : access_claims data expire (clock w) !! "iat" = Some (JInt (clock w)))
      by (unfold access_claims;
          rewrite lookup_insert_ne, lookup_insert_ne, lookup_insert_eq; done).
    assert (Hexp : access_claims data expire (clock w) !! "exp" = Some (JInt expire))
      by (unfold access_claims; rewrite lookup_insert_ne, lookup_insert_eq; done).
    specialize (Hv Hiat Hexp).
    destruct (jwt.validate_claims _ _) as [err|].
    + unfold except_JWTError. rewrite Hv.
      by case_bool_decide.
    + rewrite bool_decide_eq_false_2 by done.
      unfold access_claims. by rewrite lookup_insert_eq.
  - intros data delta w token w'.
    destruct (create_refresh_token_eq auth data delta w) as [expire ->].
    intros [= <-]. apply get_current_user_raise.
    rewrite access_subject_eq, decode_signed.
    pose proof (validate_claims_issued (clock w')
                  (refresh_claims data expire (clock w)) (clock w) expire) as Hv.
    assert (Hnbf : refresh_claims data expire (clock w) !! "nbf" = data !! "nbf")
      by (unfold refresh_claims; by rewrite !lookup_insert_ne).
    rewrite Hnbf in Hv.
    assert (Hiat : refresh_claims data expire (clock w) !! "iat" = Some (JInt (clock w)))
      by (unfold refresh_claims;
          rewrite lookup_insert_ne, lookup_insert_ne, lookup_insert_eq; done).
    assert (Hexp : refresh_claims data expire (clock w) !! "exp" = Some (JInt expire))
      by (unfold refresh_claims; rewrite lookup_insert_ne, lookup_insert_eq; done).
    specialize (Hv Hiat Hexp).
    destruct (jwt.validate_claims _ _) as [err|].
    + unfold except_JWTError. rewrite Hv.
      by case_bool_decide.
    + rewrite bool_decide_eq_false_2 by done.
      unfold refresh_claims. by rewrite lookup_insert_eq.
  - intros data w token Hnone. unfold Auth.create_email_token. run.
    intros [= <-]. eexists. split; [reflexivity|].
    by rewrite !lookup_insert_ne.
  - intros token w payload e Hd He.
    by rewrite get_email_from_token_eq, Hd, He.
Qed.

End scopes.

(** ** What a failed verification shows *)

Section failures.
Variable auth : Auth.t.

Lemma get_current_user_fails token w f :
  fails_for auth "access_token" (clock w) token f →
  Auth.get_current_user auth token w = (Raise Auth.credentials_exception, w).
Proof.
  intros Hf. apply get_current_user_raise. rewrite access_subject_eq.
  destruct f; cbn in Hf.
  - by rewrite Hf.
  - by rewrite Hf.
  - destruct Hf as (payload & scope & -> & -> & Hne).
    by rewrite bool_decide_eq_false_2.
Qed.

Lemma decode_refresh_token_fails token w f :
  fails_for auth "refresh_token" (clock w) token f →
  Auth.decode_refresh_token auth token w =
    (Raise (HTTPException HTTP_401_UNAUTHORIZED (refresh_failure_detail f) []), w).
Proof.
  intros Hf. rewrite decode_refresh_token_eq.
  destruct f; cbn in Hf.
  - by rewrite Hf.
  - by rewrite Hf.
  - destruct Hf as (payload & scope & -> & -> & Hne).
    by rewrite bool_decide_eq_false_2.
Qed.

(** C7 as amended: two tokens that fail user resolution, for whichever of
    the three causes, get the very same response, the 401 credentials
    exception.  Two tokens that fail refresh decoding both get status
    401; the response is the same when both or neither fail by scope, and
    differs in its detail line when exactly one of them fails by scope. *)
Theorem failures_collapse_to_unauthorized
    (token1 token2 : Token) (w1 w2 : World) (f1 f2 : Failure) :
  (fails_for auth "access_token" (clock w1) token1 f1 →
   fails_for auth "access_token" (clock w2) token2 f2 →
   (Auth.get_current_user auth token1 w1).1 = (Auth.get_current_user auth token2 w2).1 ∧
   (Auth.get_current_user auth token1 w1).1 = Raise (A:=User) Auth.credentials_exception ∧
   status_of (Auth.get_current_user auth token1 w1).1 = HTTP_401_UNAUTHORIZED) ∧
  (fails_for auth "refresh_token" (clock w1) token1 f1 →
   fails_for auth "refresh_token" (clock w2) token2 f2 →
   status_of (Auth.decode_refresh_token auth token1 w1).1 = HTTP_401_UNAUTHORIZED ∧
   status_of (Auth.decode_refresh_token auth token2 w2).1 = HTTP_401_UNAUTHORIZED ∧
   ((f1 = ScopeMismatch ↔ f2 = ScopeMismatch) ↔
    (Auth.decode_refresh_token auth token1 w1).1 =
    (Auth.decode_refresh_token auth token2 w2).1)).
Proof.
  split.
  - intros H1 H2.
    by rewrite (get_current_user_fails _ _ _ H1), (get_current_user_fails _ _ _ H2).
  - intros H1 H2.
    rewrite (decode_refresh_token_fails _ _ _ H1), (decode_refresh_token_fails _ _ _ H2).
    cbn. split; [done|]. split; [done|].
    destruct f1, f2; cbn; split; try done; try (intros [= ?]; done);
      try (intros [H H']; try (specialize (H eq_refl)); try (specialize (H' eq_refl));
           discriminate).
Qed.

(** C10 as amended: for a token that decodes, user resolution and refresh
    decoding escape with a [KeyError] (status 500) when the scope claim is
    missing, or when the scope is the expected one and the subject is
    missing; email decoding escapes with a [KeyError] exactly when the
    subject is missing and returns the subject otherwise, with or without
    a scope claim. *)
Theorem missing_claims_escape (token : Token) (w : World)
    (payload : gmap string jval) :
  jwt.decode (clock w) token (Auth.SECRET_KEY auth) [Auth.ALGORITHM auth] = inr payload →
  (payload !! "scope" = None →
     Auth.get_current_user auth token w = (Raise (KeyError "scope"), w) ∧
     Auth.decode_refresh_token auth token w = (Raise (KeyError "scope"), w)) ∧
  (payload !! "sub" = None →
     (payload !! "scope" = Some (JStr "access_token") →
        Auth.get_current_user auth token w = (Raise (KeyError "sub"), w)) ∧
     (payload !! "scope" = Some (JStr "refresh_token") →
        Auth.decode_refresh_token auth token w = (Raise (KeyError "sub"), w)) ∧
     Auth.get_email_from_token auth token w = (Raise (KeyError "sub"), w)) ∧
  (∀ e, payload !! "sub" = Some e →
        Auth.get_email_from_token auth token w = (Ok e, w)) ∧
  (∀ key, status_of (Raise (A:=jval) (KeyError key)) = HTTP_500_INTERNAL_SERVER_ERROR).
Proof.
  intros Hd. repeat apply conj.
  - intros Hscope. split.
    + apply get_current_user_raise. by rewrite access_subject_eq, Hd, Hscope.
    + by rewrite decode_refresh_token_eq, Hd, Hscope.
  - intros Hsub. repeat apply conj.
    + intros Hscope. apply get_current_user_raise.
      by rewrite access_subject_eq, Hd, Hscope, Hsub.
    + intros Hscope. by rewrite decode_refresh_token_eq, Hd, Hscope, Hsub.
    + by rewrite get_email_from_token_eq, Hd, Hsub.
  - intros e He. by rewrite get_email_from_token_eq, Hd, He.
  - done.
Qed.

End failures.

(** ** Refresh *)

Section refresh.
Variable auth : Auth.t.

Lemma decode_refresh_token_inv token w e :
  (Auth.decode_refresh_token auth token w).1 = Ok e →
  ∃ payload,
    jwt.decode (clock w) token (Auth.SECRET_KEY auth) [Auth.ALGORITHM auth] = inr payload ∧
    payload !! "scope" = Some (JStr "refresh_token") ∧
    payload !! "sub" = Some e.
Proof.
  rewrite decode_refresh_token_eq.
  destruct (jwt.decode _ _ _ _) as [err|payload]; [discriminate|].
  destruct (payload !! "scope") as [scope|] eqn:Hscope; [|discriminate].
  case_bool_decide as Heq; [|discriminate]. subst scope.
  destruct (payload !! "sub") as [e'|] eqn:Hsub; [|discriminate].
  intros [= ->]. eauto.
Qed.

(** The route, once the token has decoded under refresh scope to the
    address [s] of a stored user. *)
Lemma refresh_token_decoded token w payload s u :
  jwt.decode (clock w) token (Auth.SECRET_KEY auth) [Auth.ALGORITHM auth] = inr payload →
  payload !! "scope" = Some (JStr "refresh_token") →
  payload !! "sub" = Some (JStr s) →
  db w !! s = Some u →
  routes.refresh_token auth token w =
    if bool_decide (refresh_token u = Some token)
    then
      let access := JWS (Auth.ALGORITHM auth) (Auth.SECRET_KEY auth)
                        (access_claims {["sub" := JStr s]} (clock w + 15 * 60) (clock w)) in
      let refresh := JWS (Auth.ALGORITHM auth) (Auth.SECRET_KEY auth)
                         (refresh_claims {["sub" := JStr s]} (clock w + 7 * 86400) (clock w)) in
      (Ok (TokenModel access refresh "bearer"),
       with_log (with_db w (<[email u := set_refresh_token u (Some refresh)]> (db w)))
                (log w ++ [DbQuery (JStr s); DbCommit]))
    else
      (Raise (HTTPException HTTP_401_UNAUTHORIZED "Invalid refresh token" []),
       with_log (with_db w (<[email u := set_refresh_token u None]> (db w)))
                (log w ++ [DbQuery (JStr s); DbCommit])).
Proof.
  intros Hd Hscope Hsub Hu. unfold routes.refresh_token.
  unfold mbind at 1. unfold M_bind, bind.
  rewrite decode_refresh_token_eq, Hd, Hscope, Hsub.
  rewrite bool_decide_eq_true_2 by done.
  unfold Auth.create_access_token, Auth.create_refresh_token. run.
  rewrite Hu. cbn.
  case_bool_decide; cbn; by rewrite <- !app_assoc.
Qed.

(** C2 as amended: for a bearer token that decodes under refresh scope to
    a stored user, a token other than the stored one is answered with 401
    and the stored value becomes null; the stored one is answered with a
    new access and refresh token, and the new refresh token is stored.
    The new refresh token differs from the presented one whenever the
    presented token was not issued in the current second; when it
    differs, presenting the old token again is answered with 401 at any
    instant, and, if it still decodes, the stored value becomes null. *)
Theorem refresh_token_rotation (token : Token) (w : World) (s : string) (u : User) :
  db_wf (db w) →
  (Auth.decode_refresh_token auth token w).1 = Ok (JStr s) →
  db w !! s = Some u →
  let res := routes.refresh_token auth token w in
  (refresh_token u ≠ Some token →
     res.1 = Raise (HTTPException HTTP_401_UNAUTHORIZED "Invalid refresh token" []) ∧
     db res.2 = <[s := set_refresh_token u None]> (db w)) ∧
  (refresh_token u = Some token →
     ∃ access refresh,
       (Auth.create_access_token auth {["sub" := JStr s]} None w).1 = Ok access ∧
       (Auth.create_refresh_token auth {["sub" := JStr s]} None w).1 = Ok refresh ∧
       res.1 = Ok (TokenModel access refresh "bearer") ∧
       db res.2 = <[s := set_refresh_token u (Some refresh)]> (db w) ∧
       (∀ claims, token = JWS (Auth.ALGORITHM auth) (Auth.SECRET_KEY auth) claims →
                  claims !! "iat" ≠ Some (JInt (clock w)) → refresh ≠ token) ∧
       (refresh ≠ token →
          (refresh_token <$> db res.2 !! s) ≠ Some (Some token) ∧
          ∀ t, let again := routes.refresh_token auth token (at_time res.2 t) in
               status_of again.1 = HTTP_401_UNAUTHORIZED ∧
               (∀ payload,
                  jwt.decode t token (Auth.SECRET_KEY auth) [Auth.ALGORITHM auth]
                    = inr payload →
                  again.1 = Raise (HTTPException HTTP_401_UNAUTHORIZED
                                                 "Invalid refresh token" []) ∧
                  (refresh_token <$> db again.2 !! s) = Some None))).
Proof.
  intros Hwf Hdec Hu res.
  destruct (decode_refresh_token_inv _ _ _ Hdec) as (payload & Hd & Hscope & Hsub).
  pose proof (Hwf _ _ Hu) as He.
  pose proof (refresh_token_decoded _ _ _ _ _ Hd Hscope Hsub Hu) as Hres.
  fold res in Hres. split.
  - intros Hne. rewrite Hres, bool_decide_eq_false_2 by done. cbn.
    by rewrite He.
  - intros Heq. rewrite Hres, bool_decide_eq_true_2 by done. cbn.
    exists (JWS (Auth.ALGORITHM auth) (Auth.SECRET_KEY auth)
                (access_claims {["sub" := JStr s]} (clock w + 15 * 60) (clock w))),
           (JWS (Auth.ALGORITHM auth) (Auth.SECRET_KEY auth)
                (refresh_claims {["sub" := JStr s]} (clock w + 7 * 86400) (clock w))).
    split; [reflexivity|]. split; [reflexivity|].
    split; [reflexivity|]. split; [by rewrite He|]. split.
    + intros claims -> Hiat [= Hc]. apply Hiat. rewrite <- Hc.
      unfold refresh_claims.
      rewrite lookup_insert_ne, lookup_insert_ne, lookup_insert_eq; done.
    + intros Hfresh. rewrite He, lookup_insert_eq. cbn. split; [congruence|].
      intros t. set (w1 := at_time _ t).
      assert (Hu1 : ∃ u1, db w1 !! s = Some u1 ∧ email u1 = s ∧
                          refresh_token u1 ≠ Some token).
      { eexists. split; [subst w1; cbn; apply lookup_insert_eq|].
        split; [done|]. cbn. congruence. }
      destruct Hu1 as (u1 & Hu1 & He1 & Hne1).
      destruct (decode_again auth _ t _ _ Hd) as [Hd'|(err & Hd' & Herr)].
      * rewrite (refresh_token_decoded token w1 payload s u1); [|done..].
        rewrite bool_decide_eq_false_2 by done. cbn.
        split; [done|]. intros _ _. split; [done|].
        by rewrite He1, lookup_insert_eq.
      * split.
        -- unfold routes.refresh_token.
           unfold mbind at 1. unfold M_bind, bind.
           rewrite decode_refresh_token_eq.
           change (clock w1) with t. rewrite Hd'.
           unfold except_JWTError. by rewrite Herr.
        -- intros payload'. rewrite Hd'. discriminate.
Qed.

End refresh.

(** ** Requesting emails *)

Lemma request_reset_password_generic (body : RequestEmail) (base_url : string)
    (w : World) :
  (routes.request_reset_password body base_url w).1 =
    Ok (Message "Check your email for confirmation.").
Proof.
  unfold routes.request_reset_password. run.
  by destruct (db w !! body_email body).
Qed.

(** For a known address, [request_email] answers already-confirmed or
    queues the confirmation mail and answers with the generic message. *)
Lemma request_email_known (body : RequestEmail) (base_url : string) (w : World)
    (u : User) :
  db w !! body_email body = Some u →
  routes.request_email body base_url w =
    let w' := with_log w (log w ++ [DbQuery (JStr (body_email body))]) in
    if confirmed u
    then (Ok (Message "Your email is already confirmed"), w')
    else (Ok (Message "Check your email for confirmation."),
          with_tasks w' (background_tasks w ++ [send_email (email u) (username u) base_url])).
Proof.
  intros Hu. unfold routes.request_email. run. rewrite Hu. cbn.
  by destruct (confirmed u).
Qed.

(** C3, the behaviour of the code on an unknown address: [request_email]
    reads [confirmed] of the missing user before testing the user, so the
    request ends in an [AttributeError] (status 500) instead of the generic
    message; [request_reset_password] answers with the generic message. *)
Theorem request_email_unknown_address (body : RequestEmail) (base_url : string)
    (w : World) :
  db w !! body_email body = None →
  (routes.request_email body base_url w).1 = Raise (AttributeError "NoneType" "confirmed") ∧
  status_of (routes.request_email body base_url w).1 = HTTP_500_INTERNAL_SERVER_ERROR ∧
  (routes.request_reset_password body base_url w).1 =
    Ok (Message "Check your email for confirmation.").
Proof.
  intros Hu. split; [|split].
  - unfold routes.request_email. run. by rewrite Hu.
  - unfold routes.request_email. run. by rewrite Hu.
  - apply request_reset_password_generic.
Qed.

(** ** Rate limits *)

Section limiter.
Import RateLimit.
Variables (route : ContactRoute) (route_key client_key : string).

Lemma call_in_window now store c expiry :
  store !! (client_key, route_key) = Some (mkWindow c expiry) →
  now < expiry →
  call route route_key client_key now store =
    (bool_decide (c + 1 ≤ times (dependencies route)),
     <[(client_key, route_key) := mkWindow (c + 1) expiry]> store).
Proof.
  intros Hc Hlt. unfold call, allow, current. rewrite Hc. cbn.
  by destruct (Z.ltb_spec now expiry); [|lia].
Qed.

Lemma call_new_window now store :
  current now (client_key, route_key) store = None →
  call route route_key client_key now store =
    (bool_decide (1 ≤ times (dependencies route)),
     <[(client_key, route_key) := mkWindow 1 (now + seconds (dependencies route))]> store).
Proof. intros Hc. unfold call, allow. by rewrite Hc. Qed.

(** Calls that all fall inside the running window are counted one by
    one and leave its expiry alone. *)
Lemma calls_in_window instants :
  ∀ store c expiry,
    store !! (client_key, route_key) = Some (mkWindow c expiry) →
    Forall (λ t, t < expiry) instants →
    calls route route_key client_key instants store =
      (verdicts (times (dependencies route)) c (length instants),
       <[(client_key, route_key) := mkWindow (c + Z.of_nat (length instants)) expiry]>
         store).
Proof.
  induction instants as [|t rest IH]; intros store c expiry Hc Hall.
  - cbn. rewrite Z.add_0_r. by rewrite insert_id.
  - apply Forall_cons in Hall as [Ht Hrest].
    cbn [calls]. rewrite (call_in_window _ _ _ _ Hc Ht).
    rewrite (IH _ (c + 1) expiry); [|apply lookup_insert_eq|done].
    cbn [verdicts length]. rewrite insert_insert_eq.
    do 3 f_equal. lia.
Qed.

(** A first call that opens a window, followed by calls inside it. *)
Lemma calls_from_new_window t1 rest store :
  current t1 (client_key, route_key) store = None →
  Forall (λ t, t < t1 + seconds (dependencies route)) rest →
  calls route route_key client_key (t1 :: rest) store =
    (verdicts (times (dependencies route)) 0 (S (length rest)),
     <[(client_key, route_key) :=
         mkWindow (1 + Z.of_nat (length rest)) (t1 + seconds (dependencies route))]>
       store).
Proof.
  intros Hnew Hall. cbn [calls]. rewrite (call_new_window _ _ Hnew).
  rewrite (calls_in_window rest _ 1 (t1 + seconds (dependencies route)));
    [|apply lookup_insert_eq|done].
  by rewrite insert_insert_eq.
Qed.

End limiter.

(** C8: the contact routes declare the quotas list 5/60, single read
    10/60, create 2/180, update 5/120 and delete 5/60; and on a route whose
    quota is 5 per 60 seconds, of six calls of one client, the first opening
    a window and the others within 60 seconds of it, the first five are
    allowed and the sixth is rejected, while a call once the 60 seconds have
    elapsed is allowed and opens a new window counting that call alone. *)
Theorem contact_route_quotas (route : ContactRoute) (route_key client_key : string)
    (store : gmap (string * string) RateLimit.Window) (t1 t2 t3 t4 t5 t6 t' : Z) :
  dependencies route = mkRateLimiter 5 60 →
  RateLimit.current t1 (client_key, route_key) store = None →
  Forall (λ t, t1 ≤ t < t1 + 60) [t2; t3; t4; t5; t6] →
  t1 + 60 ≤ t' →
  (dependencies get_contacts = mkRateLimiter 5 60 ∧
   dependencies get_contact = mkRateLimiter 10 60 ∧
   dependencies create_contact = mkRateLimiter 2 180 ∧
   dependencies update_contact = mkRateLimiter 5 120 ∧
   dependencies remove_contact = mkRateLimiter 5 60) ∧
  let six := RateLimit.calls route route_key client_key [t1; t2; t3; t4; t5; t6] store in
  six.1 = [true; true; true; true; true; false] ∧
  let later := RateLimit.call route route_key client_key t' six.2 in
  later.1 = true ∧
  later.2 !! (client_key, route_key) = Some (RateLimit.mkWindow 1 (t' + 60)).
Proof.
  intros Hq Hnew Hall Hlater. split; [done|]. cbn zeta.
  rewrite calls_from_new_window; [|done|].
  2:{ rewrite Hq. cbn. eapply Forall_impl; [exact Hall|]. cbn. lia. }
  rewrite Hq. cbn [fst snd times seconds length]. split; [done|].
  rewrite call_new_window.
  - rewrite Hq. cbn. split; [done|]. by rewrite lookup_insert_eq.
  - unfold RateLimit.current. rewrite lookup_insert_eq. cbn.
    by destruct (Z.ltb_spec t' (t1 + 60)); [lia|].
Qed.

(** * Concrete runs *)

Lemma sample_users_wf : db_wf sample.users.
Proof.
  intros k u. unfold sample.users.
  rewrite lookup_insert_Some, lookup_singleton_Some.
  by intros [[<- <-]|[_ [<- <-]]].
Qed.

Lemma sample_login :
  routes.login sample.auth sample.form sample.w0 =
    (Ok (TokenModel sample.access sample.refresh "bearer"), sample.w1).
Proof. vm_compute. reflexivity. Qed.

Lemma sample_w1_alice :
  db sample.w1 !! "a@b.com" = Some (set_refresh_token sample.alice (Some sample.refresh)).
Proof. vm_compute. reflexivity. Qed.

Lemma sample_w1_wf : db_wf (db sample.w1).
Proof.
  assert (H : db sample.w1 =
              <["bob@b.com" := sample.bob]>
                {["a@b.com" := set_refresh_token sample.alice (Some sample.refresh)]})
    by (vm_compute; reflexivity).
  rewrite H. intros k u.
  rewrite lookup_insert_Some, lookup_singleton_Some.
  by intros [[<- <-]|[_ [<- <-]]].
Qed.

(** C1, counterexample: the access token that a login hands out is accepted
    by the password-reset flow, which stores the new password, and by the
    email-confirmation flow. *)
Lemma email_flows_accept_access_token :
  (routes.login sample.auth sample.form sample.w0).1 =
    Ok (TokenModel sample.access sample.refresh "bearer") ∧
  (∃ claims, sample.access = JWS "HS256" "secret" claims ∧
             claims !! "scope" = Some (JStr "access_token")) ∧
  (let reset := routes.reset_password sample.auth (mkResetPassword "hack" "hack")
                                      sample.access sample.w1 in
   reset.1 = Ok (Message "Password reset successfully") ∧
   (password <$> db reset.2 !! "a@b.com") = Some "$hack") ∧
  (routes.confirmed_email sample.auth sample.access sample.w1).1 =
    Ok (Message "Your email is already confirmed").
Proof.
  split; [by rewrite sample_login|].
  split; [eexists; split; [reflexivity|by vm_compute]|].
  split; [split; vm_compute; reflexivity|].
  vm_compute. reflexivity.
Qed.

(** C2, counterexample: a refresh presented in the second in which the
    token was issued is answered with the very same refresh token, which
    stays the stored value and is accepted once more. *)
Lemma refresh_within_same_second_keeps_token :
  let first := routes.refresh_token sample.auth sample.refresh sample.w1 in
  (refresh_token <$> db sample.w1 !! "a@b.com") = Some (Some sample.refresh) ∧
  first.1 = Ok (TokenModel sample.access sample.refresh "bearer") ∧
  (refresh_token <$> db first.2 !! "a@b.com") = Some (Some sample.refresh) ∧
  (routes.refresh_token sample.auth sample.refresh first.2).1 =
    Ok (TokenModel sample.access sample.refresh "bearer") ∧
  status_of (routes.refresh_token sample.auth sample.refresh first.2).1 = HTTP_200_OK.
Proof. cbn zeta. repeat split; vm_compute; reflexivity. Qed.

(** C7, counterexample: refresh decoding answers a token with a wrong
    signature and a token with a wrong scope differently. *)
Lemma refresh_decoding_reveals_scope_mismatch :
  fails_for sample.auth "refresh_token" (clock sample.w0) sample.forged InvalidSignature ∧
  fails_for sample.auth "refresh_token" (clock sample.w0) sample.access ScopeMismatch ∧
  (Auth.decode_refresh_token sample.auth sample.forged sample.w0).1 =
    Raise (HTTPException HTTP_401_UNAUTHORIZED "Could not validate credentials" []) ∧
  (Auth.decode_refresh_token sample.auth sample.access sample.w0).1 =
    Raise (HTTPException HTTP_401_UNAUTHORIZED "Invalid scope for token" []) ∧
  (Auth.decode_refresh_token sample.auth sample.forged sample.w0).1 ≠
  (Auth.decode_refresh_token sample.auth sample.access sample.w0).1.
Proof.
  split; [by vm_compute|].
  split.
  { eexists _, (JStr "access_token"). split; [by vm_compute|].
    split; [by vm_compute|]. discriminate. }
  split; [by vm_compute|]. split; [by vm_compute|].
  vm_compute. discriminate.
Qed.

(** C9, counterexample: a string that is no token, and a token signed with
    another key, are answered with 422 by the confirmation endpoint. *)
Lemma malformed_confirmation_token_unprocessable :
  status_of (routes.confirmed_email sample.auth (Malformed "garbage") sample.w0).1 =
    HTTP_422_UNPROCESSABLE_ENTITY ∧
  status_of (routes.confirmed_email sample.auth sample.forged sample.w0).1 =
    HTTP_422_UNPROCESSABLE_ENTITY ∧
  HTTP_422_UNPROCESSABLE_ENTITY ≠ HTTP_200_OK ∧
  HTTP_422_UNPROCESSABLE_ENTITY ≠ HTTP_400_BAD_REQUEST.
Proof. repeat split; by vm_compute. Qed.

(** C10, counterexample: the email token the service issues carries no
    scope claim, decodes, and email decoding returns its subject instead of
    raising a key error. *)
Lemma email_token_without_scope_is_decoded :
  (Auth.create_email_token sample.auth {["sub" := JStr "bob@b.com"]} sample.w0).1 =
    Ok sample.email_token ∧
  (∃ claims, jwt.decode (clock sample.w0) sample.email_token
                        (Auth.SECRET_KEY sample.auth) [Auth.ALGORITHM sample.auth]
             = inr claims ∧
             claims !! "scope" = None) ∧
  (Auth.get_email_from_token sample.auth sample.email_token sample.w0).1 =
    Ok (JStr "bob@b.com").
Proof.
  split; [by vm_compute|].
  split; [eexists; split; by vm_compute|].
  by vm_compute.
Qed.

(** How the confirmation endpoint answers tokens whose [exp] is no number:
    null ends the request in a [TypeError]; a text that writes a number
    counts as that number; a text that writes none and the boolean true,
    which counts as second 1, are refused with 422. *)
Lemma confirmation_coerces_exp :
  (routes.confirmed_email sample.auth sample_more.null_exp sample.w0).1 =
    Raise (TypeError "int" "NoneType") ∧
  status_of (routes.confirmed_email sample.auth sample_more.null_exp sample.w0).1 =
    HTTP_500_INTERNAL_SERVER_ERROR ∧
  (routes.confirmed_email sample.auth sample_more.text_exp sample.w0).1 =
    Ok (Message "Email confirmed") ∧
  status_of (routes.confirmed_email sample.auth sample_more.text_exp
               (at_time sample.w0 605801)).1 = HTTP_422_UNPROCESSABLE_ENTITY ∧
  status_of (routes.confirmed_email sample.auth sample_more.word_exp sample.w0).1 =
    HTTP_422_UNPROCESSABLE_ENTITY ∧
  status_of (routes.confirmed_email sample.auth sample_more.true_exp sample.w0).1 =
    HTTP_422_UNPROCESSABLE_ENTITY.
Proof. repeat split; vm_compute; reflexivity. Qed.

(** ** Instances of the general statements *)


(** Bob confirms with his email token. *)
Lemma confirmed_email_idempotent_witness :
  db_wf (db sample.w0) ∧
  jwt.decode (clock sample.w0) sample.email_token
             (Auth.SECRET_KEY sample.auth) [Auth.ALGORITHM sample.auth]
    = inr (<["exp" := JInt 605800]> (<["iat" := JInt 1000]> {["sub" := JStr "bob@b.com"]})) ∧
  db sample.w0 !! "bob@b.com" = Some sample.bob ∧
  (routes.confirmed_email sample.auth sample.email_token sample.w0).1 =
    Ok (Message "Email confirmed").
Proof.
  assert (Hd : jwt.decode (clock sample.w0) sample.email_token
                 (Auth.SECRET_KEY sample.auth) [Auth.ALGORITHM sample.auth]
               = inr (<["exp" := JInt 605800]>
                        (<["iat" := JInt 1000]> {["sub" := JStr "bob@b.com"]})))
    by (vm_compute; reflexivity).
  assert (Hu : db sample.w0 !! "bob@b.com" = Some sample.bob)
    by (vm_compute; reflexivity).
  split; [exact sample_users_wf|]. split; [exact Hd|]. split; [exact Hu|].
  destruct (confirmed_email_idempotent sample.auth sample.email_token sample.w0
              _ "bob@b.com" sample.bob sample_users_wf Hd
              ltac:(vm_compute; reflexivity) Hu) as (_ & Hflip & _).
  apply Hflip. reflexivity.
Defined.

(** Alice refreshes at second 2000 with the token stored at her login. *)
Lemma refresh_token_rotation_witness :
  db_wf (db (at_time sample.w1 2000)) ∧
  (Auth.decode_refresh_token sample.auth sample.refresh (at_time sample.w1 2000)).1 =
    Ok (JStr "a@b.com") ∧
  db (at_time sample.w1 2000) !! "a@b.com" =
    Some (set_refresh_token sample.alice (Some sample.refresh)) ∧
  ∃ access refresh,
    (routes.refresh_token sample.auth sample.refresh (at_time sample.w1 2000)).1 =
      Ok (TokenModel access refresh "bearer") ∧
    refresh ≠ sample.refresh.
Proof.
  assert (Hd : (Auth.decode_refresh_token sample.auth sample.refresh
                  (at_time sample.w1 2000)).1 = Ok (JStr "a@b.com"))
    by (vm_compute; reflexivity).
  split; [exact sample_w1_wf|]. split; [exact Hd|]. split; [exact sample_w1_alice|].
  destruct (refresh_token_rotation sample.auth sample.refresh (at_time sample.w1 2000)
              "a@b.com" _ sample_w1_wf Hd sample_w1_alice) as (_ & Hmatch).
  destruct (Hmatch eq_refl) as (access & refresh & _ & _ & Hres & _ & Hfresh & _).
  exists access, refresh. split; [exact Hres|].
  apply (Hfresh _ eq_refl). vm_compute. discriminate.
Defined.

(** An address nobody registered. *)
Lemma request_email_unknown_address_witness :
  db sample.w0 !! body_email (mkRequestEmail "nobody@b.com") = None ∧
  status_of (routes.request_email (mkRequestEmail "nobody@b.com")
                                  "http://localhost:8000/" sample.w0).1 =
    HTTP_500_INTERNAL_SERVER_ERROR.
Proof.
  assert (H : db sample.w0 !! body_email (mkRequestEmail "nobody@b.com") = None)
    by (vm_compute; reflexivity).
  split; [exact H|].
  apply (request_email_unknown_address (mkRequestEmail "nobody@b.com")
           "http://localhost:8000/" sample.w0 H).
Defined.

(** Six list calls ten seconds apart, and one a minute after the first. *)
Lemma contact_route_quotas_witness :
  dependencies get_contacts = mkRateLimiter 5 60 ∧
  RateLimit.current 0 ("127.0.0.1", "/api/contacts/:GET") ∅ = None ∧
  Forall (λ t, 0 ≤ t < 0 + 60) [10; 20; 30; 40; 50] ∧
  0 + 60 ≤ 60 ∧
  (RateLimit.calls get_contacts "/api/contacts/:GET" "127.0.0.1"
                   [0; 10; 20; 30; 40; 50] ∅).1 =
    [true; true; true; true; true; false].
Proof.
  assert (Hall : Forall (λ t, 0 ≤ t < 0 + 60) [10; 20; 30; 40; 50])
    by (repeat constructor; lia).
  assert (Hlater : 0 + 60 ≤ 60) by lia.
  assert (Hnew : RateLimit.current 0 ("127.0.0.1", "/api/contacts/:GET") ∅ = None)
    by (vm_compute; reflexivity).
  split; [reflexivity|]. split; [exact Hnew|]. split; [exact Hall|].
  split; [exact Hlater|].
  apply (contact_route_quotas get_contacts "/api/contacts/:GET" "127.0.0.1" ∅
           0 10 20 30 40 50 60 eq_refl Hnew Hall Hlater).
Defined.

(** A signed token that carries neither scope nor subject. *)
Lemma missing_claims_escape_witness :
  jwt.decode (clock sample.w0) sample.bare
             (Auth.SECRET_KEY sample.auth) [Auth.ALGORITHM sample.auth]
    = inr {["exp" := JInt 605800]} ∧
  Auth.get_current_user sample.auth sample.bare sample.w0 =
    (Raise (KeyError "scope"), sample.w0).
Proof.
  assert (Hd : jwt.decode (clock sample.w0) sample.bare
                 (Auth.SECRET_KEY sample.auth) [Auth.ALGORITHM sample.auth]
               = inr {["exp" := JInt 605800]}) by (vm_compute; reflexivity).
  split; [exact Hd|].
  destruct (missing_claims_escape sample.auth sample.bare sample.w0 _ Hd)
    as (Hscope & _).
  apply Hscope. vm_compute. reflexivity.
Defined.

(** * Further properties of the code *)

(** ** Lifetime of the issued tokens *)

Section lifetimes.
Variable auth : Auth.t.

Lemma validate_access_claims now s e t :
  jwt.validate_claims now (access_claims {["sub" := JStr s]} e t) =
    if e <? now then Some jwt.ExpiredSignatureError else None.
Proof.
  unfold jwt.validate_claims, jwt.validate_iat, jwt.validate_nbf, jwt.validate_exp,
    jwt.validate_aud, jwt.validate_sub, jwt.validate_jti, jwt.validate_at_hash.
  change (access_claims {["sub" := JStr s]} e t !! "iat") with (Some (JInt t)).
  change (access_claims {["sub" := JStr s]} e t !! "nbf") with (@None jval).
  change (access_claims {["sub" := JStr s]} e t !! "exp") with (Some (JInt e)).
  change (access_claims {["sub" := JStr s]} e t !! "aud") with (@None jval).
  change (access_claims {["sub" := JStr s]} e t !! "sub") with (Some (JStr s)).
  change (access_claims {["sub" := JStr s]} e t !! "jti") with (@None jval).
  change (access_claims {["sub" := JStr s]} e t !! "at_hash") with (@None jval).
  cbn. by destruct (e <? now).
Qed.

Lemma validate_refresh_claims now s e t :
  jwt.validate_claims now (refresh_claims {["sub" := JStr s]} e t) =
    if e <? now then Some jwt.ExpiredSignatureError else None.
Proof.
  unfold jwt.validate_claims, jwt.validate_iat, jwt.validate_nbf, jwt.validate_exp,
    jwt.validate_aud, jwt.validate_sub, jwt.validate_jti, jwt.validate_at_hash.
  change (refresh_claims {["sub" := JStr s]} e t !! "iat") with (Some (JInt t)).
  change (refresh_claims {["sub" := JStr s]} e t !! "nbf") with (@None jval).
  change (refresh_claims {["sub" := JStr s]} e t !! "exp") with (Some (JInt e)).
  change (refresh_claims {["sub" := JStr s]} e t !! "aud") with (@None jval).
  change (refresh_claims {["sub" := JStr s]} e t !! "sub") with (Some (JStr s)).
  change (refresh_claims {["sub" := JStr s]} e t !! "jti") with (@None jval).
  change (refresh_claims {["sub" := JStr s]} e t !! "at_hash") with (@None jval).
  cbn. by destruct (e <? now).
Qed.



(** Resolution of a user once the token has verified. *)
Lemma get_current_user_resolved token w s :
  Auth.access_subject auth token w = (Ok (JStr s), w) →
  Auth.get_current_user auth token w =
    match cache_lookup (clock w) s (r w) with
    | Some snapshot => (Ok snapshot, with_log w (log w ++ [RedisGet s]))
    | None =>
        match db w !! s with
        | Some user =>
            (Ok user,
             with_log (with_r w (<[s := mkEntry user (Some (clock w + 120))]> (r w)))
                      (log w ++ [RedisGet s; DbQuery (JStr s); RedisSet s;
                                 RedisExpire s 120]))
        | None =>
            (Raise Auth.credentials_exception,
             with_log w (log w ++ [RedisGet s; DbQuery (JStr s)]))
        end
    end.
Proof.
  intros Hsub. unfold Auth.get_current_user. run. rewrite Hsub. cbn.
  destruct (cache_lookup (clock w) s (r w)) as [snapshot|] eqn:Hc; [done|]. cbn.
  destruct (db w !! s) as [user|] eqn:Hu; cbn; [|by rewrite <- app_assoc].
  assert (Hset : cache_lookup (clock w) s
                   (<[s := mkEntry (pickle.dumps user) None]> (r w)) = Some user).
  { unfold cache_lookup. by rewrite lookup_insert_eq. }
  by rewrite Hset, insert_insert_eq, <- !app_assoc.
Qed.

Lemma access_subject_issued s e t w :
  Auth.access_subject auth
    (JWS (Auth.ALGORITHM auth) (Auth.SECRET_KEY auth)
         (access_claims {["sub" := JStr s]} e t)) w =
    if e <? clock w then (Raise Auth.credentials_exception, w) else (Ok (JStr s), w).
Proof.
  rewrite access_subject_eq, decode_signed, validate_access_claims.
  destruct (e <? clock w); [done|].
  change (access_claims {["sub" := JStr s]} e t !! "scope")
    with (Some (JStr "access_token")).
  change (access_claims {["sub" := JStr s]} e t !! "sub") with (Some (JStr s)).
  reflexivity.
Qed.




Lemma get_email_from_token_issued s w w' token :
  (Auth.create_email_token auth {["sub" := JStr s]} w).1 = Ok token →
  Auth.get_email_from_token auth token w' =
    if clock w + 604800 <? clock w'
    then (Raise (HTTPException HTTP_422_UNPROCESSABLE_ENTITY
                               "Invalid token for email verification" []), w')
    else (Ok (JStr s), w').
Proof.
  unfold Auth.create_email_token. run. unfold jwt.encode. intros [= <-].
  rewrite get_email_from_token_eq, decode_signed.
  set (claims := <["exp" := _]> _).
  assert (Hv : jwt.validate_claims (clock w') claims =
               if clock w + 604800 <? clock w'
               then Some jwt.ExpiredSignatureError else None).
  { unfold jwt.validate_claims, jwt.validate_iat, jwt.validate_nbf, jwt.validate_exp,
      jwt.validate_aud, jwt.validate_sub, jwt.validate_jti, jwt.validate_at_hash.
    change (claims !! "iat") with (Some (JInt (clock w))).
    change (claims !! "nbf") with (@None jval).
    change (claims !! "exp") with (Some (JInt (clock w + 7 * 86400))).
    change (claims !! "aud") with (@None jval).
    change (claims !! "sub") with (Some (JStr s)).
    change (claims !! "jti") with (@None jval).
    change (claims !! "at_hash") with (@None jval).
    cbn. by destruct (_ <? _). }
  rewrite Hv. destruct (clock w + 604800 <? clock w'); [done|].
  by change (claims !! "sub") with (Some (JStr s)).
Qed.

(** X3: an email token issued for a subject decodes to that subject for
    seven days and is answered with 422 afterwards. *)
Theorem email_token_lifetime (s : string) (w w' : World) (token : Token) :
  (Auth.create_email_token auth {["sub" := JStr s]} w).1 = Ok token →
  (clock w' ≤ clock w + 604800 →
     Auth.get_email_from_token auth token w' = (Ok (JStr s), w')) ∧
  (clock w + 604800 < clock w' →
     Auth.get_email_from_token auth token w' =
       (Raise (HTTPException HTTP_422_UNPROCESSABLE_ENTITY
                             "Invalid token for email verification" []), w')).
Proof.
  intros Htok. rewrite (get_email_from_token_issued _ _ w' _ Htok).
  split; intros H; by destruct (Z.ltb_spec (clock w + 604800) (clock w')); try lia.
Qed.

End lifetimes.

(** ** What the decoders accept *)

Section acceptance.
Variable auth : Auth.t.

Lemma validate_claims_exp now claims e :
  jwt.validate_claims now claims = None →
  claims !! "exp" = Some (JInt e) →
  now ≤ e.
Proof.
  unfold jwt.validate_claims.
  destruct (jwt.validate_iat claims); [discriminate|].
  destruct (jwt.validate_nbf now claims); [discriminate|].
  unfold jwt.validate_exp. intros H He. rewrite He in H. cbn in H.
  destruct (Z.ltb_spec e now); [discriminate|lia].
Qed.




Lemma decode_unexpired now token payload e :
  jwt.decode now token (Auth.SECRET_KEY auth) [Auth.ALGORITHM auth] = inr payload →
  payload !! "exp" = Some (JInt e) →
  now ≤ e.
Proof.
  destruct token as [raw|alg k claims]; cbn; [discriminate|].
  case_bool_decide; cbn; [|discriminate].
  case_bool_decide; cbn; [|discriminate].
  destruct (jwt.validate_claims now claims) eqn:Hv; [discriminate|].
  intros [= <-]. by apply validate_claims_exp.
Qed.

(** X4: whenever [get_current_user] returns a user, the bearer token is
    signed with the service's key and algorithm, carries the access scope
    and a string subject, is not past its expiry, and the user returned is
    the live cache entry of that subject or, without one, the row stored
    under that subject. *)
Theorem get_current_user_sound (token : Token) (w : World) (user : User) :
  (Auth.get_current_user auth token w).1 = Ok user →
  ∃ claims s,
    token = JWS (Auth.ALGORITHM auth) (Auth.SECRET_KEY auth) claims ∧
    claims !! "scope" = Some (JStr "access_token") ∧
    claims !! "sub" = Some (JStr s) ∧
    (∀ e, claims !! "exp" = Some (JInt e) → clock w ≤ e) ∧
    (cache_lookup (clock w) s (r w) = Some user ∨
     cache_lookup (clock w) s (r w) = None ∧ db w !! s = Some user).
Proof.
  intros H.
  destruct (Auth.access_subject auth token w) as [[e|x] w1] eqn:Hs.
  - assert (Hs1 : (Auth.access_subject auth token w).1 = Ok e) by by rewrite Hs.
    destruct (access_subject_inv auth _ _ _ Hs1) as (payload & s & Hd & Hscope & Hsub & ->).
    apply access_subject_ok in Hs1.
    rewrite (get_current_user_resolved auth _ _ _ Hs1) in H.
    exists payload, s. split; [by eapply decode_inr|]. split; [done|]. split; [done|].
    split; [intros e He; by eapply decode_unexpired|].
    destruct (cache_lookup (clock w) s (r w)) as [snapshot|]; cbn in H.
    + left. congruence.
    + right. split; [done|]. destruct (db w !! s); cbn in H; congruence.
  - assert (Hs1 : (Auth.access_subject auth token w).1 = Raise x) by by rewrite Hs.
    rewrite (get_current_user_raise auth _ _ _ Hs1) in H. discriminate.
Qed.


End acceptance.

(** ** Login and what follows it *)

Section after_login.
Variable auth : Auth.t.

(** The result of a login that passes the three checks. *)
Lemma login_success body w u :
  db w !! form_username body = Some u →
  confirmed u = true →
  Auth.verify_password auth (form_password body) (password u) = true →
  routes.login auth body w =
    let access := JWS (Auth.ALGORITHM auth) (Auth.SECRET_KEY auth)
                      (access_claims {["sub" := JStr (email u)]} (clock w + 900) (clock w)) in
    let refresh := JWS (Auth.ALGORITHM auth) (Auth.SECRET_KEY auth)
                       (refresh_claims {["sub" := JStr (email u)]} (clock w + 604800)
                                       (clock w)) in
    (Ok (TokenModel access refresh "bearer"),
     with_log (with_db w (<[email u := set_refresh_token u (Some refresh)]> (db w)))
              (log w ++ [DbQuery (JStr (form_username body)); DbCommit])).
Proof.
  intros Hu Hc Hv. unfold routes.login, Auth.create_access_token,
    Auth.create_refresh_token. run.
  rewrite Hu. cbn. rewrite Hc, Hv. cbn. by rewrite <- app_assoc.
Qed.

(** X6: the tokens that a successful login returns work.  At any instant
    within 15 minutes the access token resolves, on a cold cache, the user
    as stored by the login; at any instant within 7 days the refresh token
    is accepted by the refresh route, which stores the refresh token it
    returns. *)
Theorem login_tokens_work (body : OAuth2PasswordRequestForm) (w : World) (u : User)
    (access refresh : Token) (t : Z) :
  db w !! form_username body = Some u →
  (routes.login auth body w).1 = Ok (TokenModel access refresh "bearer") →
  let w1 := at_time (routes.login auth body w).2 t in
  (t ≤ clock w + 900 →
   cache_lookup t (email u) (r w) = None →
   (Auth.get_current_user auth access w1).1 =
     Ok (set_refresh_token u (Some refresh))) ∧
  (t ≤ clock w + 604800 →
   ∃ access' refresh',
     (routes.refresh_token auth refresh w1).1 = Ok (TokenModel access' refresh' "bearer") ∧
     db (routes.refresh_token auth refresh w1).2 !! email u =
       Some (set_refresh_token u (Some refresh'))).
Proof.
  intros Hu Hres.
  assert (Hc : confirmed u = true ∧
               Auth.verify_password auth (form_password body) (password u) = true).
  { revert Hres. unfold routes.login. run. rewrite Hu. cbn.
    destruct (confirmed u); [|discriminate].
    by destruct (Auth.verify_password _ _ _). }
  destruct Hc as [Hc Hv].
  rewrite (login_success _ _ _ Hu Hc Hv) in Hres |- *. cbn in Hres.
  injection Hres as <- <-. cbn [fst snd]. split.
  - intros Ht Hcold. set (w1 := at_time _ t).
    assert (Hs : Auth.access_subject auth
                   (JWS (Auth.ALGORITHM auth) (Auth.SECRET_KEY auth)
                        (access_claims {["sub" := JStr (email u)]} (clock w + 900)
                                       (clock w))) w1 = (Ok (JStr (email u)), w1)).
    { rewrite access_subject_issued. change (clock w1) with t.
      by destruct (Z.ltb_spec (clock w + 900) t); [lia|]. }
    rewrite (get_current_user_resolved auth _ _ _ Hs).
    change (clock w1) with t. change (r w1) with (r w). rewrite Hcold.
    subst w1. cbn [db at_time with_log with_db]. by rewrite lookup_insert_eq.
  - intros Ht. set (w1 := at_time _ t).
    set (refresh := JWS _ _ (refresh_claims _ _ _)).
    assert (Hd : jwt.decode (clock w1) refresh (Auth.SECRET_KEY auth)
                   [Auth.ALGORITHM auth] =
                 inr (refresh_claims {["sub" := JStr (email u)]} (clock w + 604800)
                                     (clock w))).
    { subst refresh. rewrite decode_signed, validate_refresh_claims.
      change (clock w1) with t.
      by destruct (Z.ltb_spec (clock w + 604800) t); [lia|]. }
    rewrite (refresh_token_decoded auth refresh w1 _ (email u)
               (set_refresh_token u (Some refresh)) Hd);
      [|done|done|subst w1; cbn; by rewrite lookup_insert_eq].
    rewrite bool_decide_eq_true_2 by done. cbn.
    eexists _, _. split; [reflexivity|]. by rewrite lookup_insert_eq.
Qed.

End after_login.

(** ** Signing up *)

(** The user that a signup stores. *)
Lemma signup_eq auth body base_url new_id w :
  signup auth body base_url new_id w =
    let w1 := with_log w (log w ++ [DbQuery (JStr (um_email body))]) in
    match db w !! um_email body with
    | Some _ =>
        Some (Raise (HTTPException HTTP_409_CONFLICT "Account already exists" []), w1)
    | None =>
        let new_user := mkUser new_id (um_username body) (um_email body) None
                          (Auth.get_password_hash auth (um_password body))
                          (clock w) None false in
        Some (Ok (mkUserResponse
                    (to_UserDb new_user)
                    "User successfully created. Check your email for confirmation."),
              mkWorld (clock w) (<[um_email body := new_user]> (db w)) (r w)
                      (background_tasks w ++
                         [send_email (um_email body) (um_username body) base_url])
                      (log w ++ [DbQuery (JStr (um_email body)); DbCommit]))
    end.
Proof.
  unfold signup, create_user. run. cbn.
  destruct (db w !! um_email body); cbn; [done|].
  by rewrite <- app_assoc.
Qed.

(** ** The cache is never invalidated *)

Section staleness.
Variable auth : Auth.t.

(** No handler of [routes/auth.py] writes to Redis or moves the clock. *)
Lemma login_frame body w :
  r (routes.login auth body w).2 = r w ∧ clock (routes.login auth body w).2 = clock w.
Proof.
  unfold routes.login, Auth.create_access_token, Auth.create_refresh_token. run.
  destruct (db w !! form_username body) as [u|]; cbn; [|done].
  destruct (confirmed u); cbn; [|done].
  by destruct (Auth.verify_password _ _ _).
Qed.

Lemma get_email_from_token_cases token w :
  (∃ x, Auth.get_email_from_token auth token w = (Raise x, w)) ∨
  (∃ e, Auth.get_email_from_token auth token w = (Ok e, w)).
Proof.
  rewrite get_email_from_token_eq.
  destruct (jwt.decode _ _ _ _) as [err|payload]; [eauto|].
  destruct (payload !! "sub"); eauto.
Qed.

Lemma decode_refresh_token_cases token w :
  (∃ x, Auth.decode_refresh_token auth token w = (Raise x, w)) ∨
  (∃ e, Auth.decode_refresh_token auth token w = (Ok e, w)).
Proof.
  rewrite decode_refresh_token_eq.
  destruct (jwt.decode _ _ _ _) as [err|payload]; [eauto|].
  destruct (payload !! "scope") as [scope|]; [|eauto].
  case_bool_decide; [|eauto].
  destruct (payload !! "sub"); eauto.
Qed.

Lemma confirmed_email_frame token w :
  r (routes.confirmed_email auth token w).2 = r w ∧
  clock (routes.confirmed_email auth token w).2 = clock w.
Proof.
  remember (routes.confirmed_email auth token w) as res eqn:Hres. revert Hres.
  unfold routes.confirmed_email. unfold mbind at 1. unfold M_bind, bind.
  destruct (get_email_from_token_cases token w) as [[x ->]|[e ->]]; [by intros ->|]. run.
  destruct (match e with JStr s => db w !! s | _ => None end) as [u|] eqn:Hu;
    cbn; [|by intros ->].
  destruct (confirmed u); [by intros ->|]. cbn. rewrite Hu. by intros ->.
Qed.

Lemma reset_password_frame body token w :
  r (routes.reset_password auth body token w).2 = r w ∧
  clock (routes.reset_password auth body token w).2 = clock w.
Proof.
  remember (routes.reset_password auth body token w) as res eqn:Hres. revert Hres.
  unfold routes.reset_password. unfold mbind at 1. unfold M_bind, bind.
  destruct (get_email_from_token_cases token w) as [[x ->]|[e ->]]; [by intros ->|]. run.
  destruct (match e with JStr s => db w !! s | _ => None end) as [u|];
    cbn; [|by intros ->].
  case_bool_decide; by intros ->.
Qed.

Lemma refresh_token_frame token w :
  r (routes.refresh_token auth token w).2 = r w ∧
  clock (routes.refresh_token auth token w).2 = clock w.
Proof.
  remember (routes.refresh_token auth token w) as res eqn:Hres. revert Hres.
  unfold routes.refresh_token. unfold mbind at 1. unfold M_bind, bind.
  destruct (decode_refresh_token_cases token w) as [[x ->]|[e ->]]; [by intros ->|].
  unfold Auth.create_access_token, Auth.create_refresh_token. run.
  destruct (match e with JStr s => db w !! s | _ => None end) as [u|];
    cbn; [|by intros ->].
  case_bool_decide; by intros ->.
Qed.

Lemma request_email_frame body base_url w :
  r (routes.request_email body base_url w).2 = r w ∧
  clock (routes.request_email body base_url w).2 = clock w ∧
  db (routes.request_email body base_url w).2 = db w.
Proof.
  unfold routes.request_email. run.
  destruct (db w !! body_email body) as [u|]; cbn; [|done].
  by destruct (confirmed u).
Qed.

Lemma request_reset_password_frame body base_url w :
  r (routes.request_reset_password body base_url w).2 = r w ∧
  clock (routes.request_reset_password body base_url w).2 = clock w ∧
  db (routes.request_reset_password body base_url w).2 = db w.
Proof.
  unfold routes.request_reset_password. run.
  by destruct (db w !! body_email body).
Qed.

(** X7: no handler of the auth routes ever writes to the cache: after
    login, email confirmation, password reset, refresh, either mail
    request and signup, Redis holds what it held before. *)
Theorem auth_routes_never_touch_cache (w : World) :
  (∀ body, r (routes.login auth body w).2 = r w) ∧
  (∀ token, r (routes.confirmed_email auth token w).2 = r w) ∧
  (∀ body token, r (routes.reset_password auth body token w).2 = r w) ∧
  (∀ token, r (routes.refresh_token auth token w).2 = r w) ∧
  (∀ body base_url, r (routes.request_email body base_url w).2 = r w) ∧
  (∀ body base_url, r (routes.request_reset_password body base_url w).2 = r w) ∧
  (∀ body base_url new_id res w',
     signup auth body base_url new_id w = Some (res, w') → r w' = r w).
Proof.
  repeat apply conj.
  - intros. apply login_frame.
  - intros. apply confirmed_email_frame.
  - intros. apply reset_password_frame.
  - intros. apply refresh_token_frame.
  - intros. apply request_email_frame.
  - intros. apply request_reset_password_frame.
  - intros body base_url new_id res w'. rewrite signup_eq. cbn zeta.
    destruct (db w !! um_email body); by intros [= <- <-].
Qed.


End staleness.

(** ** The table invariant *)

Section invariant.
Variable auth : Auth.t.

Lemma insert_wf (d : gmap string User) (u : User) :
  db_wf d → db_wf (<[email u := u]> d).
Proof.
  intros Hwf k u' Hk. destruct (decide (email u = k)) as [<-|Hne].
  - rewrite lookup_insert_eq in Hk. by injection Hk as <-.
  - rewrite lookup_insert_ne in Hk by done. by apply Hwf.
Qed.

Lemma touches_only_refl s (d : gmap string User) : touches_only s d d.
Proof. split; [done|]. eauto. Qed.

(** Writing back a row that was read under [s], with its key columns as
    they were. *)
Lemma touches_only_insert s (d : gmap string User) u u' :
  db_wf d → d !! s = Some u →
  user_id u' = user_id u → email u' = email u →
  touches_only s d (<[email u' := u']> d) ∧ db_wf (<[email u' := u']> d).
Proof.
  intros Hwf Hu Hid He. pose proof (Hwf _ _ Hu) as Hs.
  split; [|by apply insert_wf].
  rewrite He, Hs. split.
  - intros k Hk. by rewrite lookup_insert_ne.
  - intros u0 Hu0. exists u'. rewrite lookup_insert_eq. split; [done|].
    rewrite Hu in Hu0. injection Hu0 as <-. done.
Qed.

Lemma login_writes body w :
  db (routes.login auth body w).2 = db w ∨
  ∃ u token, db w !! form_username body = Some u ∧
    db (routes.login auth body w).2 =
      <[email u := set_refresh_token u token]> (db w).
Proof.
  unfold routes.login, Auth.create_access_token, Auth.create_refresh_token. run.
  destruct (db w !! form_username body) as [u|]; cbn; [|by left].
  destruct (confirmed u); cbn; [|by left].
  destruct (Auth.verify_password _ _ _); cbn; [|by left].
  right. by eexists u, _.
Qed.

Lemma confirmed_email_writes token w :
  db (routes.confirmed_email auth token w).2 = db w ∨
  ∃ s u, (Auth.get_email_from_token auth token w).1 = Ok (JStr s) ∧
    db w !! s = Some u ∧
    db (routes.confirmed_email auth token w).2 =
      <[email u := set_confirmed u true]> (db w).
Proof.
  remember (routes.confirmed_email auth token w) as res eqn:Hres. revert Hres.
  unfold routes.confirmed_email. unfold mbind at 1. unfold M_bind, bind.
  destruct (get_email_from_token_cases auth token w) as [[x ->]|[e ->]];
    [intros ->; by left|]. run.
  destruct e as [| | |s]; cbn; try (intros ->; by left).
  destruct (db w !! s) as [u|] eqn:Hu; cbn; [|intros ->; by left].
  destruct (confirmed u); [intros ->; by left|]. cbn. rewrite Hu. cbn.
  intros ->. right. by exists s, u.
Qed.

Lemma reset_password_writes body token w :
  db (routes.reset_password auth body token w).2 = db w ∨
  ∃ s u, (Auth.get_email_from_token auth token w).1 = Ok (JStr s) ∧
    db w !! s = Some u ∧
    db (routes.reset_password auth body token w).2 =
      <[email u := set_password u (Auth.get_password_hash auth (password1 body))]>
        (db w).
Proof.
  remember (routes.reset_password auth body token w) as res eqn:Hres. revert Hres.
  unfold routes.reset_password. unfold mbind at 1. unfold M_bind, bind.
  destruct (get_email_from_token_cases auth token w) as [[x ->]|[e ->]];
    [intros ->; by left|]. run.
  destruct e as [| | |s]; cbn; try (intros ->; by left).
  destruct (db w !! s) as [u|] eqn:Hu; cbn; [|intros ->; by left].
  case_bool_decide; cbn; [|intros ->; by left].
  intros ->. right. by exists s, u.
Qed.

Lemma refresh_token_writes token w :
  db (routes.refresh_token auth token w).2 = db w ∨
  ∃ s u stored, (Auth.decode_refresh_token auth token w).1 = Ok (JStr s) ∧
    db w !! s = Some u ∧
    db (routes.refresh_token auth token w).2 =
      <[email u := set_refresh_token u stored]> (db w).
Proof.
  remember (routes.refresh_token auth token w) as res eqn:Hres. revert Hres.
  unfold routes.refresh_token. unfold mbind at 1. unfold M_bind, bind.
  destruct (decode_refresh_token_cases auth token w) as [[x ->]|[e ->]];
    [intros ->; by left|].
  unfold Auth.create_access_token, Auth.create_refresh_token. run.
  destruct e as [| | |s]; cbn; try (intros ->; by left).
  destruct (db w !! s) as [u|] eqn:Hu; cbn; [|intros ->; by left].
  case_bool_decide; cbn; intros ->; right; by eexists s, u, _.
Qed.

(** X9: what the handlers of the auth routes do to the users table, when
    every row is stored under its own address.  Login touches at most the
    row of the submitted address; email confirmation and password reset at
    most the row of the address that the token decodes to, and refresh at
    most the row of the subject of the refresh token; signup at most adds
    the row of the new address.  Whatever they touch, no row is removed or
    changes its primary key or its address, and every row is again stored
    under its own address.  A confirmation, reset or refresh whose token
    yields no address, both mail requests and user resolution leave the
    table as it is. *)
Theorem auth_routes_keep_table_invariant (w : World) :
  db_wf (db w) →
  (∀ body, let d' := db (routes.login auth body w).2 in
     db_wf d' ∧ touches_only (form_username body) (db w) d') ∧
  (∀ token, let d' := db (routes.confirmed_email auth token w).2 in
     db_wf d' ∧
     (∀ s, (Auth.get_email_from_token auth token w).1 = Ok (JStr s) →
           touches_only s (db w) d') ∧
     ((∀ s, (Auth.get_email_from_token auth token w).1 ≠ Ok (JStr s)) → d' = db w)) ∧
  (∀ body token, let d' := db (routes.reset_password auth body token w).2 in
     db_wf d' ∧
     (∀ s, (Auth.get_email_from_token auth token w).1 = Ok (JStr s) →
           touches_only s (db w) d') ∧
     ((∀ s, (Auth.get_email_from_token auth token w).1 ≠ Ok (JStr s)) → d' = db w)) ∧
  (∀ token, let d' := db (routes.refresh_token auth token w).2 in
     db_wf d' ∧
     (∀ s, (Auth.decode_refresh_token auth token w).1 = Ok (JStr s) →
           touches_only s (db w) d') ∧
     ((∀ s, (Auth.decode_refresh_token auth token w).1 ≠ Ok (JStr s)) → d' = db w)) ∧
  (∀ body base_url, db (routes.request_email body base_url w).2 = db w) ∧
  (∀ body base_url, db (routes.request_reset_password body base_url w).2 = db w) ∧
  (∀ body base_url new_id res w',
     signup auth body base_url new_id w = Some (res, w') →
     db_wf (db w') ∧ touches_only (um_email body) (db w) (db w')) ∧
  (∀ token, db (Auth.get_current_user auth token w).2 = db w).
Proof.
  intros Hwf. repeat apply conj.
  - intros body. cbn zeta.
    destruct (login_writes body w) as [->|(u & token & Hu & ->)].
    + split; [done|apply touches_only_refl].
    + destruct (touches_only_insert _ _ u (set_refresh_token u token) Hwf Hu) as [? ?];
        done.
  - intros token. cbn zeta.
    destruct (confirmed_email_writes token w) as [->|(s & u & Hs & Hu & ->)].
    + split; [done|]. split; [|done]. intros. apply touches_only_refl.
    + destruct (touches_only_insert _ _ u (set_confirmed u true) Hwf Hu) as [? ?];
        [done..|].
      split; [done|]. split.
      * intros s'. rewrite Hs. by intros [= <-].
      * intros Hno. by destruct (Hno s).
  - intros body token. cbn zeta.
    destruct (reset_password_writes body token w) as [->|(s & u & Hs & Hu & ->)].
    + split; [done|]. split; [|done]. intros. apply touches_only_refl.
    + destruct (touches_only_insert _ _ u
                  (set_password u (Auth.get_password_hash auth (password1 body)))
                  Hwf Hu) as [? ?]; [done..|].
      split; [done|]. split.
      * intros s'. rewrite Hs. by intros [= <-].
      * intros Hno. by destruct (Hno s).
  - intros token. cbn zeta.
    destruct (refresh_token_writes token w) as [->|(s & u & stored & Hs & Hu & ->)].
    + split; [done|]. split; [|done]. intros. apply touches_only_refl.
    + destruct (touches_only_insert _ _ u (set_refresh_token u stored) Hwf Hu) as [? ?];
        [done..|].
      split; [done|]. split.
      * intros s'. rewrite Hs. by intros [= <-].
      * intros Hno. by destruct (Hno s).
  - intros. apply request_email_frame.
  - intros. apply request_reset_password_frame.
  - intros body base_url new_id res w'. rewrite signup_eq. cbn zeta.
    destruct (db w !! um_email body) as [u|] eqn:Hu; intros [= <- <-].
    + split; [done|apply touches_only_refl].
    + cbn. split; [by apply (insert_wf _ (mkUser _ _ _ _ _ _ _ _))|].
      split.
      * intros k Hk. by rewrite lookup_insert_ne.
      * intros u. rewrite Hu. discriminate.
  - intros token.
    destruct (Auth.access_subject auth token w) as [[e|x] w1] eqn:Hs.
    + assert (Hs1 : (Auth.access_subject auth token w).1 = Ok e) by by rewrite Hs.
      destruct (access_subject_inv auth _ _ _ Hs1) as (payload & s & _ & _ & _ & ->).
      apply access_subject_ok in Hs1.
      rewrite (get_current_user_resolved auth _ _ _ Hs1).
      destruct (cache_lookup (clock w) s (r w)); [done|].
      by destruct (db w !! s).
    + assert (Hs1 : (Auth.access_subject auth token w).1 = Raise x) by by rewrite Hs.
      by rewrite (get_current_user_raise auth _ _ _ Hs1).
Qed.

End invariant.

(** ** Resetting the password *)

Section reset.
Variable auth : Auth.t.

(** The route, once the token has decoded to the address [s]. *)
Lemma reset_password_decoded body token w payload s :
  jwt.decode (clock w) token (Auth.SECRET_KEY auth) [Auth.ALGORITHM auth] = inr payload →
  payload !! "sub" = Some (JStr s) →
  routes.reset_password auth body token w =
    match db w !! s with
    | None =>
        (Raise (HTTPException HTTP_400_BAD_REQUEST "Verification error" []),
         with_log w (log w ++ [DbQuery (JStr s)]))
    | Some u =>
        if bool_decide (password1 body = password2 body)
        then (Ok (Message "Password reset successfully"),
              with_log (with_db w (<[email u := set_password u
                                       (Auth.get_password_hash auth (password1 body))]>
                                     (db w)))
                       (log w ++ [DbQuery (JStr s); DbCommit]))
        else (Ok (Message "Passwords do not match!"),
              with_log w (log w ++ [DbQuery (JStr s)]))
    end.
Proof.
  intros Hd Hs. unfold routes.reset_password.
  unfold mbind at 1. unfold M_bind, bind.
  rewrite get_email_from_token_eq, Hd, Hs. run.
  destruct (db w !! s) as [u|]; [|done]. cbn.
  case_bool_decide; cbn; [|done]. by rewrite <- app_assoc.
Qed.


(** X11: after a successful password reset of a confirmed user, a login
    with the new password succeeds whenever the hasher verifies a password
    against its own hash, and a login with any password that does not
    verify against the new hash is answered with 401. *)
Theorem reset_password_then_login (body : ResetPasswordModel) (token : Token)
    (w : World) (s : string) (u : User) (t : Z) (attempt : string) :
  db_wf (db w) →
  Auth.get_email_from_token auth token w = (Ok (JStr s), w) →
  db w !! s = Some u →
  confirmed u = true →
  password1 body = password2 body →
  let w1 := at_time (routes.reset_password auth body token w).2 t in
  let new_hash := Auth.get_password_hash auth (password1 body) in
  (Auth.verify_password auth attempt new_hash = true →
     ∃ access refresh,
       (routes.login auth (mkForm s attempt) w1).1 =
         Ok (TokenModel access refresh "bearer")) ∧
  (Auth.verify_password auth attempt new_hash = false →
     (routes.login auth (mkForm s attempt) w1).1 =
       Raise (HTTPException HTTP_401_UNAUTHORIZED "Invalid password" [])).
Proof.
  intros Hwf He Hu Hc Hp. cbn zeta.
  pose proof (Hwf _ _ Hu) as Hemail.
  rewrite get_email_from_token_eq in He.
  destruct (jwt.decode _ _ _ _) as [err|payload] eqn:Hd; [discriminate|].
  destruct (payload !! "sub") as [e|] eqn:Hsub; [|discriminate].
  injection He as ->.
  rewrite (reset_password_decoded body _ _ _ _ Hd Hsub), Hu.
  rewrite bool_decide_eq_true_2 by done. cbn [snd].
  set (u1 := set_password u _). set (w1 := at_time _ t).
  assert (Hu1 : db w1 !! form_username (mkForm s attempt) = Some u1).
  { subst w1. cbn. rewrite <- Hemail. apply lookup_insert_eq. }
  split.
  - intros Hv. rewrite (login_success auth _ _ _ Hu1 Hc Hv). cbn. eauto.
  - intros Hv. unfold routes.login. run.
    change (form_username (mkForm s attempt)) with s in *. rewrite Hu1. cbn.
    change (confirmed u1) with (confirmed u). rewrite Hc. cbn.
    change (password u1) with (Auth.get_password_hash auth (password1 body)).
    by rewrite Hv.
Qed.

End reset.

(** ** Edges of the refresh route *)

Section refresh_edges.
Variable auth : Auth.t.

(** X12: a refresh token that verifies but names a subject without a stored
    user makes the refresh route read an attribute of [None]: the request
    ends in an [AttributeError], status 500, and the table is unchanged. *)
Theorem refresh_token_unknown_subject (token : Token) (w : World) (s : string) :
  (Auth.decode_refresh_token auth token w).1 = Ok (JStr s) →
  db w !! s = None →
  (routes.refresh_token auth token w).1 = Raise (AttributeError "NoneType" "refresh_token") ∧
  status_of (routes.refresh_token auth token w).1 = HTTP_500_INTERNAL_SERVER_ERROR ∧
  db (routes.refresh_token auth token w).2 = db w.
Proof.
  intros Hdec Hu.
  assert (Hd : Auth.decode_refresh_token auth token w = (Ok (JStr s), w)).
  { destruct (decode_refresh_token_cases auth token w) as [[x Hx]|[e He]];
      rewrite ?Hx, ?He in Hdec |- *; cbn in Hdec; congruence. }
  assert (Hres : routes.refresh_token auth token w =
                 (Raise (AttributeError "NoneType" "refresh_token"),
                  with_log w (log w ++ [DbQuery (JStr s)]))).
  { unfold routes.refresh_token. unfold mbind at 1. unfold M_bind, bind.
    rewrite Hd. run. by rewrite Hu. }
  by rewrite Hres.
Qed.

(** X13: the lockout.  When a refresh token other than the stored one is
    presented for a user, the request is answered with 401 and the stored
    value becomes null; from then on the user's own token, the one that had
    been stored, is answered with 401 as well, at any instant: nobody can
    refresh that session until the next login. *)
Theorem refresh_mismatch_locks_out (presented stored : Token) (w : World)
    (s : string) (u : User) (t : Z) :
  db_wf (db w) →
  (Auth.decode_refresh_token auth presented w).1 = Ok (JStr s) →
  (Auth.decode_refresh_token auth stored w).1 = Ok (JStr s) →
  db w !! s = Some u →
  refresh_token u = Some stored →
  presented ≠ stored →
  let first := routes.refresh_token auth presented w in
  let second := routes.refresh_token auth stored (at_time first.2 t) in
  status_of first.1 = HTTP_401_UNAUTHORIZED ∧
  (refresh_token <$> db first.2 !! s) = Some None ∧
  status_of second.1 = HTTP_401_UNAUTHORIZED ∧
  (refresh_token <$> db second.2 !! s) = Some None.
Proof.
  intros Hwf Hdec Hdec2 Hu Hstored Hne. cbn zeta.
  pose proof (Hwf _ _ Hu) as He.
  destruct (decode_refresh_token_inv auth _ _ _ Hdec) as (payload & Hd & Hscope & Hsub).
  destruct (decode_refresh_token_inv auth _ _ _ Hdec2)
    as (payload2 & Hd2 & Hscope2 & Hsub2).
  rewrite (refresh_token_decoded auth _ _ _ _ _ Hd Hscope Hsub Hu).
  rewrite bool_decide_eq_false_2 by congruence. cbn [fst snd].
  split; [done|]. set (w1 := at_time _ t).
  assert (Hu1 : db w1 !! s = Some (set_refresh_token u None)).
  { subst w1. cbn. rewrite <- He. apply lookup_insert_eq. }
  split; [cbn; rewrite <- He; by rewrite lookup_insert_eq|].
  destruct (decode_again auth _ (clock w1) _ _ Hd2) as [Hd'|(err & Hd' & Herr)].
  - rewrite (refresh_token_decoded auth _ _ _ _ _ Hd' Hscope2 Hsub2 Hu1).
    rewrite bool_decide_eq_false_2 by done. cbn.
    split; [done|]. by rewrite He, lookup_insert_eq.
  - assert (Hres : routes.refresh_token auth stored w1 =
                   (Raise (HTTPException HTTP_401_UNAUTHORIZED
                                         "Could not validate credentials" []), w1)).
    { unfold routes.refresh_token. unfold mbind at 1. unfold M_bind, bind.
      rewrite decode_refresh_token_eq, Hd'. unfold except_JWTError.
      by rewrite Herr. }
    rewrite Hres. cbn [fst snd]. split; [done|]. by rewrite Hu1.
Qed.

End refresh_edges.

(** ** Mail requests *)

(** Asking for a password reset mail reveals nothing and changes
    nothing but the queue: the response is the same generic message for
    every address, the table and the cache are untouched, and one reset
    mail, addressed to the stored user, is queued exactly when the address
    belongs to a user. *)
Theorem request_reset_password_queues_for_known (body : RequestEmail)
    (base_url : string) (w : World) :
  let res := routes.request_reset_password body base_url w in
  res.1 = Ok (Message "Check your email for confirmation.") ∧
  db res.2 = db w ∧ r res.2 = r w ∧
  background_tasks res.2 =
    (background_tasks w ++
       match db w !! body_email body with
       | Some u => [send_reset_password_email (email u) (username u) base_url]
       | None => []
       end)%list.
Proof.
  cbn zeta. unfold routes.request_reset_password. run.
  destruct (db w !! body_email body) as [u|]; cbn; [done|].
  by rewrite app_nil_r.
Qed.

(** Asking again for the confirmation mail, for the address of a
    stored user: a confirmed user gets the already-confirmed message and no
    mail is queued; an unconfirmed user gets the generic message and one
    confirmation mail is queued.  The table and the cache stay as they
    are. *)
Theorem request_email_for_known_user (body : RequestEmail) (base_url : string)
    (w : World) (u : User) :
  db w !! body_email body = Some u →
  let res := routes.request_email body base_url w in
  db res.2 = db w ∧ r res.2 = r w ∧
  (confirmed u = true →
     res.1 = Ok (Message "Your email is already confirmed") ∧
     background_tasks res.2 = background_tasks w) ∧
  (confirmed u = false →
     res.1 = Ok (Message "Check your email for confirmation.") ∧
     background_tasks res.2 =
       (background_tasks w ++ [send_email (email u) (username u) base_url])%list).
Proof.
  intros Hu. cbn zeta. rewrite (request_email_known _ _ _ _ Hu). cbn zeta.
  destruct (confirmed u); cbn; repeat split; done.
Qed.

(** ** Signing up, continued *)

Section signing_up.
Variable auth : Auth.t.

(** X14: signup never runs into the unique-address constraint.  For a
    stored address it answers 409 and leaves table and queue as they are.
    For a new address it stores an unconfirmed user without refresh token
    whose password is the hash of the submitted one, leaves every other
    row alone, queues one confirmation mail to the new address, and the
    response shows id, name, address and creation time of the new user. *)
Theorem signup_outcomes (body : UserModel) (base_url : string) (new_id : Z)
    (w : World) :
  ∃ res w', signup auth body base_url new_id w = Some (res, w') ∧
    (is_Some (db w !! um_email body) →
       res = Raise (HTTPException HTTP_409_CONFLICT "Account already exists" []) ∧
       db w' = db w ∧ background_tasks w' = background_tasks w) ∧
    (db w !! um_email body = None →
       let new_user := mkUser new_id (um_username body) (um_email body) None
                         (Auth.get_password_hash auth (um_password body))
                         (clock w) None false in
       res = Ok (mkUserResponse
                   (mkUserDb new_id (um_username body) (um_email body) (clock w))
                   "User successfully created. Check your email for confirmation.") ∧
       db w' !! um_email body = Some new_user ∧
       (∀ other, other ≠ um_email body → db w' !! other = db w !! other) ∧
       background_tasks w' =
         (background_tasks w ++
            [send_email (um_email body) (um_username body) base_url])%list).
Proof.
  rewrite signup_eq. cbn zeta.
  destruct (db w !! um_email body) as [u|] eqn:Hu.
  - eexists _, _. split; [reflexivity|]. split; [done|]. discriminate.
  - eexists _, _. split; [reflexivity|]. split; [by intros []|].
    intros _. cbn. split; [done|]. split; [by rewrite lookup_insert_eq|].
    split; [|done]. intros other Hne. by rewrite lookup_insert_ne.
Qed.

(** X15: the journey of a new user.  After a signup with a new address,
    a login with the submitted password is answered with 401 "Email not
    confirmed"; once the email token issued for that address has been
    presented to the confirmation route within its seven days, the same
    login succeeds, provided the hasher verifies the password against its
    own hash. *)
Theorem signup_confirm_login (body : UserModel) (base_url : string) (new_id : Z)
    (w w1 : World) (res : Res UserResponse) (token : Token) (t_issue t_confirm t_login : Z) :
  db w !! um_email body = None →
  signup auth body base_url new_id w = Some (res, w1) →
  Auth.verify_password auth (um_password body)
    (Auth.get_password_hash auth (um_password body)) = true →
  (Auth.create_email_token auth {["sub" := JStr (um_email body)]} (at_time w1 t_issue)).1
    = Ok token →
  t_confirm ≤ t_issue + 604800 →
  let form := mkForm (um_email body) (um_password body) in
  (routes.login auth form w1).1 =
    Raise (HTTPException HTTP_401_UNAUTHORIZED "Email not confirmed" []) ∧
  let confirmation := routes.confirmed_email auth token (at_time w1 t_confirm) in
  confirmation.1 = Ok (Message "Email confirmed") ∧
  ∃ access refresh,
    (routes.login auth form (at_time confirmation.2 t_login)).1 =
      Ok (TokenModel access refresh "bearer").
Proof.
  intros Hnew Hsignup Hv Htok Ht. cbn zeta.
  rewrite signup_eq, Hnew in Hsignup. cbn zeta in Hsignup.
  injection Hsignup as <- <-.
  set (new_user := mkUser new_id _ _ _ _ _ _ _).
  set (w1 := mkWorld _ _ _ _ _).
  assert (Hu : db w1 !! um_email body = Some new_user)
    by (subst w1; cbn; apply lookup_insert_eq).
  split.
  { unfold routes.login. run. cbn [form_username]. by rewrite Hu. }
  pose proof (get_email_from_token_issued auth (um_email body) (at_time w1 t_issue)
                (at_time w1 t_confirm) token Htok) as Hdec.
  cbn [clock at_time] in Hdec.
  destruct (Z.ltb_spec (t_issue + 604800) t_confirm); [lia|].
  rewrite get_email_from_token_eq in Hdec.
  destruct (jwt.decode _ _ _ _) as [err|payload] eqn:Hd; [discriminate|].
  destruct (payload !! "sub") as [e|] eqn:Hsub; [|discriminate].
  injection Hdec as ->.
  rewrite (confirmed_email_decoded auth _ _ _ _ Hd Hsub).
  cbn [db at_time]. rewrite Hu. cbn [confirmed new_user fst snd].
  split; [done|].
  set (w2 := at_time _ t_login).
  assert (Hu2 : db w2 !! form_username (mkForm (um_email body) (um_password body)) =
                Some (set_confirmed new_user true)).
  { subst w2. cbn. apply lookup_insert_eq. }
  rewrite (login_success auth _ _ _ Hu2 eq_refl Hv). cbn. eauto.
Qed.

End signing_up.

(** ** The avatar *)


(** ** Contacts: reading *)

Section contacts_read.
Import rep_contacts.
Variables (user : User) (table : list Contact.t).

Lemma get_contact_Some contact_id c :
  get_contact contact_id user table = Some c →
  c ∈ table ∧ Contact.id c = contact_id ∧ owned_by user c = true.
Proof.
  intros H. apply head_Some_elem_of, list_elem_of_filter in H as [Hm Hin].
  unfold matches in Hm. apply andb_true_iff in Hm as [Hid Ho].
  by apply bool_decide_eq_true in Hid.
Qed.

Lemma get_contact_None contact_id :
  get_contact contact_id user table = None ↔
  ∀ c, c ∈ table → Contact.id c = contact_id → owned_by user c = false.
Proof.
  unfold get_contact. rewrite head_None. split.
  - intros Hnil c Hin Hid. destruct (owned_by user c) eqn:Ho; [|done].
    exfalso. eapply (filter_nil_not_elem_of _ _ c Hnil); [|done].
    unfold matches. by rewrite Ho, bool_decide_eq_true_2.
  - intros H. induction table as [|r l IH]; [done|].
    rewrite filter_cons. case_decide as Hm.
    + exfalso. unfold matches in Hm. apply andb_true_iff in Hm as [Hid Ho].
      apply bool_decide_eq_true in Hid.
      rewrite (H r) in Ho; [done|apply list_elem_of_here|done].
    + apply IH. intros c Hin. apply H. by apply list_elem_of_further.
Qed.

Lemma upcoming_elem today contacts :
  ∀ acc result c,
    upcoming today contacts acc = Returns result →
    c ∈ result → c ∈ acc ∨ c ∈ contacts.
Proof.
  induction contacts as [|x l IH]; intros acc result c; cbn [upcoming].
  - intros [= <-]. by left.
  - destruct (replace_year _ _) as [b|]; [|discriminate].
    destruct (date_le today b && date_le b (add_days today 7)); intros Hr Hin.
    + destruct (IH _ _ _ Hr Hin) as [Hacc|Hl].
      * apply elem_of_app in Hacc as [?|Hx]; [by left|].
        apply list_elem_of_singleton in Hx as ->. right. apply list_elem_of_here.
      * right. by apply list_elem_of_further.
    + destruct (IH _ _ _ Hr Hin) as [?|?]; [by left|].
      right. by apply list_elem_of_further.
Qed.

(** X17: every read on behalf of a user returns only rows of the table
    that belong to that user: the page of [get_contacts], the contact of
    [get_contact] (which also has the requested id), the matches of
    [search_contacts] and the list of [get_upcoming_birthdays]. *)
Theorem contact_reads_are_isolated (c : Contact.t) :
  (∀ skip limit, c ∈ get_contacts skip limit user table →
     c ∈ table ∧ Contact.user_id c = Some (user_id user)) ∧
  (∀ contact_id, get_contact contact_id user table = Some c →
     c ∈ table ∧ Contact.user_id c = Some (user_id user) ∧ Contact.id c = contact_id) ∧
  (∀ first_name last_name email,
     c ∈ search_contacts first_name last_name email user table →
     c ∈ table ∧ Contact.user_id c = Some (user_id user)) ∧
  (∀ today result,
     get_upcoming_birthdays today user table = Returns result →
     c ∈ result → c ∈ table ∧ Contact.user_id c = Some (user_id user)).
Proof.
  assert (Hown : ∀ x, x ∈ filter (λ c, owned_by user c = true) table →
                      x ∈ table ∧ Contact.user_id x = Some (user_id user)).
  { intros x Hx. apply list_elem_of_filter in Hx as [Ho Hin].
    split; [done|]. by apply bool_decide_eq_true in Ho. }
  repeat apply conj.
  - intros skip limit Hin. apply Hown.
    by apply (subseteq_drop skip), (subseteq_take limit).
  - intros contact_id H. apply get_contact_Some in H as (Hin & Hid & Ho).
    split; [done|]. split; [|done]. by apply bool_decide_eq_true in Ho.
  - intros first_name last_name email. unfold search_contacts. intros Hin. apply Hown.
    destruct (nonempty email);
      [apply list_elem_of_filter in Hin as [_ Hin]|];
      (destruct (nonempty last_name);
        [apply list_elem_of_filter in Hin as [_ Hin]|]);
      (destruct (nonempty first_name);
        [apply list_elem_of_filter in Hin as [_ Hin]|]); done.
  - intros today result Hr Hin. apply Hown.
    destruct (upcoming_elem _ _ _ _ _ Hr Hin) as [Hnil|?]; [|done].
    by apply elem_of_nil in Hnil.
Qed.

End contacts_read.

(** ** Contacts: writing *)

Section contacts_write.
Import rep_contacts.
Variable user : User.

(** X18: a contact id under which the user owns no row is answered like a
    missing one, also when the row exists and belongs to somebody else: the
    read, update and delete handlers answer 404 "Contact not found", and
    update and delete leave the table as it is. *)
Theorem foreign_contact_is_not_found (contact_id : Z) (table : list Contact.t) :
  (∀ c, c ∈ table → Contact.id c = contact_id →
        Contact.user_id c ≠ Some (user_id user)) →
  contact_routes.get_contact contact_id user table = contact_routes.not_found ∧
  status_of (contact_routes.get_contact contact_id user table) = HTTP_404_NOT_FOUND ∧
  (∀ body, contact_routes.update_contact body contact_id user table =
             Returns (contact_routes.not_found, table)) ∧
  contact_routes.remove_contact contact_id user table = (contact_routes.not_found, table).
Proof.
  intros Hforeign.
  assert (Hnone : get_contact contact_id user table = None).
  { apply get_contact_None. intros c Hin Hid.
    apply bool_decide_eq_false. by apply Hforeign. }
  unfold contact_routes.get_contact, contact_routes.update_contact,
    contact_routes.remove_contact, update_contact, remove_contact.
  rewrite Hnone. done.
Qed.

Lemma get_contact_removed contact_id table :
  get_contact contact_id user (filter (λ c, Contact.id c ≠ contact_id) table) = None.
Proof.
  apply get_contact_None. intros c Hin Hid.
  apply list_elem_of_filter in Hin as [Hne _]. done.
Qed.

(** X19: deleting a contact of the user returns it and removes it: the
    table gets shorter, the id is no longer found, rows with other ids all
    remain, and a second delete of the same id finds nothing and changes
    nothing. *)
Theorem remove_contact_then_gone (contact_id : Z) (table : list Contact.t)
    (c : Contact.t) :
  get_contact contact_id user table = Some c →
  let res := remove_contact contact_id user table in
  res.1 = Some c ∧
  (length res.2 < length table)%nat ∧
  get_contact contact_id user res.2 = None ∧
  (∀ x, x ∈ table → Contact.id x ≠ contact_id → x ∈ res.2) ∧
  remove_contact contact_id user res.2 = (None, res.2) ∧
  contact_routes.remove_contact contact_id user res.2 = (contact_routes.not_found, res.2).
Proof.
  intros Hget. cbn zeta.
  destruct (get_contact_Some _ _ _ _ Hget) as (Hin & Hid & Ho).
  assert (Hrem : remove_contact contact_id user table =
                 (Some c, filter (λ x, Contact.id x ≠ contact_id) table)).
  { unfold remove_contact. by rewrite Hget, Hid. }
  rewrite Hrem. cbn [fst snd].
  pose proof (get_contact_removed contact_id table) as Hgone.
  split; [done|]. split.
  { apply (length_filter_lt _ _ c); [done|]. by intros []. }
  split; [done|]. split.
  { intros x Hx Hne. by apply list_elem_of_filter. }
  unfold contact_routes.remove_contact, remove_contact. by rewrite Hgone.
Qed.

Lemma get_contact_updated body contact_id table c :
  get_contact contact_id user table = Some c →
  get_contact contact_id user
    ((λ r, if bool_decide (Contact.id r = Contact.id c) then updated body c else r)
       <$> table) = Some (updated body c).
Proof.
  intros Hget.
  destruct (get_contact_Some _ _ _ _ Hget) as (_ & Hid & Ho).
  assert (Hnew : matches contact_id user (updated body c) = true).
  { unfold matches, owned_by in *. cbn. by rewrite Hid, bool_decide_eq_true_2, Ho. }
  revert Hget. unfold get_contact.
  induction table as [|r l IH]; [done|].
  rewrite fmap_cons, !filter_cons.
  case_bool_decide as Hr.
  - intros _. by rewrite (decide_True _ _ Hnew).
  - case_decide as Hm; [|exact IH].
    cbn. intros [= ->]. done.
Qed.

(** X20: updating a contact of the user with an address that no other row
    holds stores the submitted fields under the same id and owner: the
    handler returns the new row, a following read of the id returns it, and
    the table keeps its length.  With an address that another row holds the
    commit raises [IntegrityError]. *)
Theorem update_contact_then_get (body : ContactModel.t) (contact_id : Z)
    (table : list Contact.t) (c : Contact.t) :
  get_contact contact_id user table = Some c →
  let others := filter (λ r, Contact.id r ≠ contact_id) table in
  (ContactModel.email body ∈ Contact.email <$> others →
     update_contact body contact_id user table = Raises "IntegrityError") ∧
  (ContactModel.email body ∉ Contact.email <$> others →
     ∃ table',
       update_contact body contact_id user table = Returns (Some (updated body c), table') ∧
       contact_routes.update_contact body contact_id user table =
         Returns (Ok (updated body c), table') ∧
       Contact.id (updated body c) = contact_id ∧
       Contact.user_id (updated body c) = Some (user_id user) ∧
       get_contact contact_id user table' = Some (updated body c) ∧
       length table' = length table).
Proof.
  intros Hget. cbn zeta.
  destruct (get_contact_Some _ _ _ _ Hget) as (_ & Hid & Ho).
  apply bool_decide_eq_true in Ho. subst contact_id.
  unfold contact_routes.update_contact, update_contact. rewrite Hget.
  fold (updated body c).
  split.
  - intros Hin. by rewrite bool_decide_eq_true_2.
  - intros Hnin. rewrite bool_decide_eq_false_2 by done.
    eexists. split; [reflexivity|]. split; [reflexivity|].
    split; [done|]. split; [done|]. split.
    + by apply get_contact_updated.
    + by rewrite length_fmap.
Qed.

(** X21: creating a contact with an address that no row holds appends a row
    with the submitted fields, the assigned id and the user as owner; a
    following read of that id by the user returns it, a read by a user with
    another primary key does not, and reads of other ids are unaffected.
    With an address that some row holds, of whichever user, the commit
    raises [IntegrityError]. *)
Theorem create_contact_then_get (body : ContactModel.t) (new_id : Z)
    (table : list Contact.t) :
  new_id ∉ Contact.id <$> table →
  (ContactModel.email body ∈ Contact.email <$> table →
     create_contact body user new_id table = Raises "IntegrityError") ∧
  (ContactModel.email body ∉ Contact.email <$> table →
     let c := Contact.mk new_id
                (ContactModel.first_name body) (ContactModel.last_name body)
                (ContactModel.email body) (ContactModel.phone_number body)
                (ContactModel.birthday body) (ContactModel.additional_info body)
                (Some (user_id user)) in
     create_contact body user new_id table = Returns (c, (table ++ [c])%list) ∧
     get_contact new_id user (table ++ [c])%list = Some c ∧
     (∀ other : User, user_id other ≠ user_id user →
        get_contact new_id other (table ++ [c])%list = None) ∧
     (∀ contact_id who, contact_id ≠ new_id →
        get_contact contact_id who (table ++ [c])%list =
        get_contact contact_id who table)).
Proof.
  intros Hfresh. unfold create_contact. split.
  - intros Hin. by rewrite bool_decide_eq_true_2.
  - intros Hnin. cbn zeta. rewrite bool_decide_eq_false_2 by done.
    set (c := Contact.mk _ _ _ _ _ _ _ _).
    assert (Hold : ∀ who, filter (λ x, matches new_id who x = true) table = []).
    { intros who. apply elem_of_nil_inv. intros x Hx.
      apply list_elem_of_filter in Hx as [Hm Hin].
      unfold matches in Hm. apply andb_true_iff in Hm as [Hm _].
      apply bool_decide_eq_true in Hm. apply Hfresh. rewrite <- Hm.
      by apply list_elem_of_fmap_2. }
    split; [done|]. split; [|split].
    + unfold get_contact. rewrite filter_app, Hold, app_nil_l.
      rewrite filter_cons_True; [done|].
      unfold matches, owned_by. cbn. by rewrite !bool_decide_eq_true_2.
    + intros other Hne. unfold get_contact. rewrite filter_app, Hold, app_nil_l.
      rewrite filter_cons_False; [done|].
      unfold matches, owned_by. cbn.
      rewrite (bool_decide_eq_false_2 (Some _ = Some _)) by congruence.
      by rewrite andb_false_r.
    + intros contact_id who Hne. unfold get_contact. rewrite filter_app.
      rewrite (filter_cons_False _ c); [by rewrite app_nil_r|].
      unfold matches. cbn. by rewrite bool_decide_eq_false_2.
Qed.

End contacts_write.

(** ** Contacts: what the writes keep *)

Lemma NoDup_fmap_eq {A B} (f : A → B) (l : list A) (x y : A) :
  NoDup (f <$> l) → x ∈ l → y ∈ l → f x = f y → x = y.
Proof.
  induction l as [|a l IH]; [by intros _ ?%elem_of_nil|].
  rewrite fmap_cons, NoDup_cons. intros [Ha Hnd] Hx Hy Hf.
  apply elem_of_cons in Hx as [->|Hx], Hy as [->|Hy].
  - done.
  - exfalso. apply Ha. rewrite Hf. by apply list_elem_of_fmap_2.
  - exfalso. apply Ha. rewrite <- Hf. by apply list_elem_of_fmap_2.
  - by apply IH.
Qed.

Lemma filter_ext_in {A} (P Q : A → Prop) `{!∀ x, Decision (P x), !∀ x, Decision (Q x)}
    (l : list A) :
  (∀ x, x ∈ l → P x ↔ Q x) → filter P l = filter Q l.
Proof.
  induction l as [|a l IH]; [done|]. intros Hext.
  rewrite !filter_cons.
  assert (Ha : P a ↔ Q a) by (apply Hext, list_elem_of_here).
  rewrite IH by (intros x Hx; by apply Hext, list_elem_of_further).
  destruct (decide (P a)), (decide (Q a)); tauto || done.
Qed.

Section contacts_keep.
Import rep_contacts.
Variables (user : User) (table : list Contact.t).

(** The row written by an update, as a function of the rows. *)
Lemma update_contact_Returns body contact_id o table' :
  update_contact body contact_id user table = Returns (o, table') →
  (o = None ∧ table' = table) ∨
  ∃ c, get_contact contact_id user table = Some c ∧ o = Some (updated body c) ∧
       (ContactModel.email body ∉
          Contact.email <$> filter (λ r, Contact.id r ≠ Contact.id c) table) ∧
       table' = (λ r, if bool_decide (Contact.id r = Contact.id c)
                      then updated body c else r) <$> table.
Proof.
  unfold update_contact.
  destruct (get_contact contact_id user table) as [c|] eqn:Hget.
  - fold (updated body c). case_bool_decide as Hin; [discriminate|].
    intros [= <- <-]. right. by exists c.
  - intros [= <- <-]. by left.
Qed.

Lemma foreign_rows_updated (l : list Contact.t) (c c' : Contact.t) :
  (∀ r, r ∈ l → Contact.id r = Contact.id c → r = c) →
  owned_by user c = true →
  owned_by user c' = true →
  filter (λ x, owned_by user x = false)
         ((λ r, if bool_decide (Contact.id r = Contact.id c) then c' else r) <$> l) =
  filter (λ x, owned_by user x = false) l.
Proof.
  intros Hsame Ho Ho'. induction l as [|r l IH]; [done|].
  rewrite fmap_cons, !filter_cons.
  rewrite IH by (intros x Hx; apply Hsame; by apply list_elem_of_further).
  case_bool_decide as Hr; [|done].
  rewrite (Hsame r) by (apply list_elem_of_here || done).
  rewrite !decide_False; [done|by rewrite Ho|by rewrite Ho'].
Qed.

(** X22: with a unique primary key, no write on behalf of a user touches a
    row of another user: after creating, updating or deleting a contact,
    the rows that the user does not own are the same rows, in the same
    order. *)
Theorem contact_writes_are_isolated :
  NoDup (Contact.id <$> table) →
  let foreign := filter (λ x, owned_by user x = false) in
  (∀ body new_id c table',
     create_contact body user new_id table = Returns (c, table') →
     foreign table' = foreign table) ∧
  (∀ body contact_id o table',
     update_contact body contact_id user table = Returns (o, table') →
     foreign table' = foreign table) ∧
  (∀ contact_id, foreign (remove_contact contact_id user table).2 = foreign table).
Proof.
  intros Hids. cbn zeta. repeat apply conj.
  - intros body new_id c table'. unfold create_contact.
    case_bool_decide; [discriminate|]. intros [= <- <-].
    rewrite filter_app, filter_cons_False, filter_nil, app_nil_r; [done|].
    unfold owned_by. cbn. by rewrite bool_decide_eq_true_2.
  - intros body contact_id o table' Hupd.
    destruct (update_contact_Returns _ _ _ _ Hupd) as [[_ ->]|(c & Hget & _ & _ & ->)];
      [done|].
    destruct (get_contact_Some _ _ _ _ Hget) as (Hin & _ & Ho).
    apply foreign_rows_updated; [|done|exact Ho].
    intros r Hr. by apply (NoDup_fmap_eq Contact.id table).
  - intros contact_id. unfold remove_contact.
    destruct (get_contact contact_id user table) as [c|] eqn:Hget; [|done].
    destruct (get_contact_Some _ _ _ _ Hget) as (Hin & _ & Ho). cbn [snd].
    rewrite list_filter_filter. apply filter_ext_in.
    intros x Hx. split; [by intros [? _]|]. intros Hf. split; [done|].
    intros Hid. rewrite (NoDup_fmap_eq Contact.id table x c Hids Hx Hin Hid) in Hf.
    congruence.
Qed.

(** X23: the writes keep the constraints of the table.  When primary key
    and address are unique over the rows, they still are after a contact
    has been created under an unused id, updated, or deleted. *)
Theorem contact_writes_keep_constraints :
  table_ok table →
  (∀ body new_id c table',
     new_id ∉ Contact.id <$> table →
     create_contact body user new_id table = Returns (c, table') →
     table_ok table') ∧
  (∀ body contact_id o table',
     update_contact body contact_id user table = Returns (o, table') →
     table_ok table') ∧
  (∀ contact_id, table_ok (remove_contact contact_id user table).2).
Proof.
  intros [Hids Hemails]. repeat apply conj.
  - intros body new_id c table' Hfresh. unfold create_contact.
    case_bool_decide as Hin; [discriminate|]. intros [= <- <-].
    split; rewrite fmap_app; apply NoDup_app; cbn.
    + split; [done|]. split; [|apply NoDup_singleton].
      intros x Hx ->%list_elem_of_singleton. done.
    + split; [done|]. split; [|apply NoDup_singleton].
      intros x Hx ->%list_elem_of_singleton. done.
  - intros body contact_id o table' Hupd.
    destruct (update_contact_Returns _ _ _ _ Hupd) as [[_ ->]|(c & Hget & _ & Hnin & ->)];
      [done|].
    destruct (get_contact_Some _ _ _ _ Hget) as (Hin & _ & _).
    split.
    + rewrite <- list_fmap_compose.
      erewrite list_fmap_ext; [exact Hids|].
      intros i r _. cbn. by case_bool_decide.
    + rewrite <- list_fmap_compose.
      apply NoDup_fmap_2_strong; [|by eapply NoDup_fmap_1].
      intros x y Hx Hy. cbn.
      assert (Hother : ∀ z, z ∈ table → Contact.id z ≠ Contact.id c →
                            ContactModel.email body ≠ Contact.email z).
      { intros z Hz Hne Heq. apply Hnin. rewrite Heq.
        apply list_elem_of_fmap_2. by apply list_elem_of_filter. }
      case_bool_decide as Hxc; case_bool_decide as Hyc; cbn.
      * intros _. rewrite (NoDup_fmap_eq Contact.id table x c Hids Hx Hin Hxc).
        by rewrite (NoDup_fmap_eq Contact.id table y c Hids Hy Hin Hyc).
      * intros Heq. by destruct (Hother y Hy Hyc Heq).
      * intros Heq. symmetry in Heq. by destruct (Hother x Hx Hxc Heq).
      * by apply (NoDup_fmap_eq Contact.email table).
  - intros contact_id. unfold remove_contact.
    destruct (get_contact contact_id user table) as [c|]; [|done]. cbn [snd].
    split.
    + apply (sublist_NoDup _ (Contact.id <$> table)); [done|].
      apply fmap_sublist, sublist_filter.
    + apply (sublist_NoDup _ (Contact.email <$> table)); [done|].
      apply fmap_sublist, sublist_filter.
Qed.

End contacts_keep.

(** ** Contacts: searching and paging *)

Section contacts_query.
Import rep_contacts.
Variables (user : User) (table : list Contact.t).

(** X24: [search_contacts] returns the contacts of the user that agree with
    every criterion that is given and not empty; an empty string counts as
    no criterion, and without criteria the search returns all contacts of
    the user, as [get_contacts] does for the whole table. *)
Theorem search_contacts_criteria (first_name last_name email : option string) :
  (∀ c, c ∈ search_contacts first_name last_name email user table ↔
        c ∈ table ∧ Contact.user_id c = Some (user_id user) ∧
        (nonempty first_name = true → Some (Contact.first_name c) = first_name) ∧
        (nonempty last_name = true → Some (Contact.last_name c) = last_name) ∧
        (nonempty email = true → Some (Contact.email c) = email)) ∧
  search_contacts (Some "") (Some "") (Some "") user table =
    search_contacts None None None user table ∧
  search_contacts None None None user table =
    get_contacts 0 (length table) user table.
Proof.
  repeat apply conj.
  - intros c. unfold search_contacts.
    destruct (nonempty email), (nonempty last_name), (nonempty first_name);
      rewrite ?list_elem_of_filter; unfold owned_by;
      rewrite bool_decide_eq_true; intuition congruence.
  - done.
  - unfold search_contacts, get_contacts. cbn [nonempty]. rewrite drop_0.
    symmetry. apply take_ge. apply length_filter.
Qed.

(** X25: a page of [get_contacts] holds at most [limit] contacts,
    consecutive pages join to the larger page, and a page that starts
    behind the last contact of the user is empty. *)
Theorem get_contacts_pages (skip limit limit' : nat) :
  (length (get_contacts skip limit user table) ≤ limit)%nat ∧
  (get_contacts skip limit user table ++
     get_contacts (skip + limit) limit' user table)%list =
    get_contacts skip (limit + limit') user table ∧
  ((length (get_contacts 0 (length table) user table) ≤ skip)%nat →
     get_contacts skip limit user table = []).
Proof.
  unfold get_contacts. repeat apply conj.
  - rewrite length_take. lia.
  - rewrite <- drop_drop. apply take_take_drop.
  - rewrite drop_0. rewrite take_ge by apply length_filter.
    intros Hlen. rewrite drop_ge by done. apply take_nil.
Qed.

End contacts_query.

(** ** Contacts: upcoming birthdays *)

Section birthdays.
Import rep_contacts.
Variables (today : Date) (user : User).

Lemma upcoming_raises contacts :
  ∀ acc c,
    c ∈ contacts →
    replace_year (Contact.birthday c) (year today) = None →
    upcoming today contacts acc = Raises "ValueError".
Proof.
  induction contacts as [|x l IH]; intros acc c Hin Hc; [by apply elem_of_nil in Hin|].
  cbn [upcoming]. apply elem_of_cons in Hin as [<-|Hin]; [by rewrite Hc|].
  destruct (replace_year (Contact.birthday x) (year today)); [|done].
  destruct (_ && _); by apply (IH _ c).
Qed.

Lemma upcoming_Returns contacts :
  ∀ acc result,
    upcoming today contacts acc = Returns result →
    result = (acc ++ filter (λ c, in_week today c = true) contacts)%list.
Proof.
  induction contacts as [|x l IH]; intros acc result; cbn [upcoming].
  - intros [= <-]. by rewrite filter_nil, app_nil_r.
  - destruct (replace_year (Contact.birthday x) (year today)) as [b|] eqn:Hb;
      [|discriminate].
    destruct (date_le today b && date_le b (add_days today 7)) eqn:Hw; intros Hr.
    + rewrite filter_cons_True by (unfold in_week; by rewrite Hb).
      rewrite (IH _ _ Hr). by rewrite <- app_assoc.
    + rewrite filter_cons_False by (unfold in_week; by rewrite Hb, Hw).
      by apply IH.
Qed.

(** X26: a contact born on 29 February breaks the birthday list in every
    year that is not a leap year: putting the birthday into the current
    year raises [ValueError], and the call fails for the user whatever
    other contacts there are. *)
Theorem leap_day_birthday_raises (table : list Contact.t) (c : Contact.t) :
  c ∈ table →
  Contact.user_id c = Some (user_id user) →
  month (Contact.birthday c) = 2 →
  day (Contact.birthday c) = 29 →
  is_leap (year today) = false →
  get_upcoming_birthdays today user table = Raises "ValueError".
Proof.
  intros Hin Ho Hm Hd Hleap. unfold get_upcoming_birthdays.
  apply (upcoming_raises _ _ c).
  - apply list_elem_of_filter. split; [|done]. by apply bool_decide_eq_true.
  - unfold replace_year, valid_date, days_in_month. cbn [year month day].
    rewrite Hm, Hd, Hleap. cbn. by rewrite andb_false_r.
Qed.

Lemma date_le_refl d : date_le d d = true.
Proof. unfold date_le. rewrite !Z.eqb_refl. apply Z.leb_refl. Qed.

Lemma date_le_trans a b c :
  date_le a b = true → date_le b c = true → date_le a c = true.
Proof.
  unfold date_le.
  destruct (Z.eqb_spec (year a) (year b)), (Z.eqb_spec (year b) (year c)),
    (Z.eqb_spec (year a) (year c)),
    (Z.eqb_spec (month a) (month b)), (Z.eqb_spec (month b) (month c)),
    (Z.eqb_spec (month a) (month c));
    rewrite ?Z.leb_le, ?Z.ltb_lt; lia.
Qed.

Lemma date_le_next_day d : date_le d (next_day d) = true.
Proof.
  unfold next_day, date_le.
  destruct (Z.ltb_spec (day d) (days_in_month (year d) (month d))); cbn.
  - rewrite !Z.eqb_refl. apply Z.leb_le. lia.
  - destruct (Z.ltb_spec (month d) 12); cbn.
    + rewrite Z.eqb_refl. destruct (Z.eqb_spec (month d) (month d + 1)); [lia|].
      apply Z.ltb_lt. lia.
    + destruct (Z.eqb_spec (year d) (year d + 1)); [lia|]. apply Z.ltb_lt. lia.
Qed.

Lemma date_le_add_days n : ∀ d, date_le d (add_days d n) = true.
Proof.
  induction n as [|n IH]; intros d; cbn [add_days]; [apply date_le_refl|].
  eapply date_le_trans; [apply date_le_next_day|apply IH].
Qed.

(** X27: when the birthday list is returned, it holds, in table order, the
    contacts of the user whose anniversary in the current year lies within
    today and the seven days after.  A contact whose month and day are
    today's is on it; a contact whose anniversary has already passed this
    year is not, also when the next one is less than a week away across the
    turn of the year. *)
Theorem upcoming_birthdays_window (table result : list Contact.t) (c : Contact.t) :
  get_upcoming_birthdays today user table = Returns result →
  result = filter (λ c, in_week today c = true)
                  (filter (λ c, owned_by user c = true) table) ∧
  (c ∈ table → Contact.user_id c = Some (user_id user) →
   month (Contact.birthday c) = month today →
   day (Contact.birthday c) = day today →
   c ∈ result) ∧
  (month (Contact.birthday c) < month today ∨
   month (Contact.birthday c) = month today ∧ day (Contact.birthday c) < day today →
   c ∉ result).
Proof.
  intros Hr. unfold get_upcoming_birthdays in Hr.
  pose proof (upcoming_Returns _ _ _ Hr) as Hres. rewrite app_nil_l in Hres.
  split; [done|]. split.
  - intros Hin Ho Hm Hd. rewrite Hres.
    assert (Hown : c ∈ filter (λ c, owned_by user c = true) table).
    { apply list_elem_of_filter. split; [|done]. by apply bool_decide_eq_true. }
    apply list_elem_of_filter. split; [|done].
    unfold in_week.
    destruct (replace_year (Contact.birthday c) (year today)) as [b|] eqn:Hb.
    + unfold replace_year in Hb. destruct (valid_date _); [|discriminate].
      injection Hb as <-. rewrite Hm, Hd.
      assert (Heq : mkDate (year today) (month today) (day today) = today)
        by by destruct today.
      rewrite Heq, date_le_refl. apply date_le_add_days.
    + by rewrite (upcoming_raises _ _ c Hown Hb) in Hr.
  - intros Hpast. rewrite Hres, list_elem_of_filter. intros [Hw _].
    unfold in_week, replace_year in Hw.
    destruct (valid_date _); [|discriminate].
    apply andb_true_iff in Hw as [Hle _]. revert Hle.
    unfold date_le. cbn [year month day]. rewrite Z.eqb_refl.
    destruct (Z.eqb_spec (month today) (month (Contact.birthday c)));
      rewrite ?Z.leb_le, ?Z.ltb_lt; lia.
Qed.

End birthdays.

(** * Instances of the further properties *)



Lemma email_token_lifetime_witness :
  (Auth.create_email_token sample.auth {["sub" := JStr "bob@b.com"]} sample.w0).1 =
    Ok sample.email_token ∧
  (Auth.get_email_from_token sample.auth sample.email_token (at_time sample.w0 605800)).1 =
    Ok (JStr "bob@b.com").
Proof.
  assert (H1 : (Auth.create_email_token sample.auth {["sub" := JStr "bob@b.com"]}
                  sample.w0).1 = Ok sample.email_token) by (vm_compute; reflexivity).
  split; [exact H1|].
  destruct (email_token_lifetime sample.auth "bob@b.com" sample.w0
              (at_time sample.w0 605800) sample.email_token H1) as [Hlive _].
  rewrite Hlive; [reflexivity|]. vm_compute. discriminate.
Defined.

Lemma get_current_user_sound_witness :
  (Auth.get_current_user sample.auth sample.access sample.w0).1 = Ok sample.alice ∧
  ∃ claims s,
    sample.access = JWS "HS256" "secret" claims ∧
    claims !! "sub" = Some (JStr s) ∧
    db sample.w0 !! s = Some sample.alice.
Proof.
  assert (H1 : (Auth.get_current_user sample.auth sample.access sample.w0).1 =
               Ok sample.alice) by (vm_compute; reflexivity).
  split; [exact H1|].
  destruct (get_current_user_sound sample.auth sample.access sample.w0 sample.alice H1)
    as (claims & s & Htok & _ & Hsub & _ & [Hc|[_ Hdb]]).
  - vm_compute in Hc. destruct (decide (s = s)); discriminate.
  - exists claims, s. split; [exact Htok|]. split; [exact Hsub|exact Hdb].
Defined.


Lemma login_tokens_work_witness :
  db sample.w0 !! form_username sample.form = Some sample.alice ∧
  (routes.login sample.auth sample.form sample.w0).1 =
    Ok (TokenModel sample.access sample.refresh "bearer") ∧
  (Auth.get_current_user sample.auth sample.access (at_time sample.w1 1200)).1 =
    Ok (set_refresh_token sample.alice (Some sample.refresh)).
Proof.
  assert (H1 : db sample.w0 !! form_username sample.form = Some sample.alice)
    by (vm_compute; reflexivity).
  assert (H2 : (routes.login sample.auth sample.form sample.w0).1 =
               Ok (TokenModel sample.access sample.refresh "bearer"))
    by (vm_compute; reflexivity).
  split; [exact H1|]. split; [exact H2|].
  destruct (login_tokens_work sample.auth sample.form sample.w0 sample.alice
              sample.access sample.refresh 1200 H1 H2) as [Haccess _].
  apply Haccess; vm_compute; [discriminate|reflexivity].
Defined.


Lemma auth_routes_keep_table_invariant_witness :
  db_wf (db sample.w0) ∧
  touches_only "a@b.com" (db sample.w0)
               (db (routes.login sample.auth sample.form sample.w0).2).
Proof.
  split; [exact sample_users_wf|].
  destruct (auth_routes_keep_table_invariant sample.auth sample.w0 sample_users_wf)
    as (Hlogin & _).
  destruct (Hlogin sample.form) as [_ Htouch]. exact Htouch.
Defined.

Lemma reset_password_then_login_witness :
  db_wf (db sample.w0) ∧
  Auth.get_email_from_token sample.auth sample.access sample.w0 =
    (Ok (JStr "a@b.com"), sample.w0) ∧
  db sample.w0 !! "a@b.com" = Some sample.alice ∧
  confirmed sample.alice = true ∧
  password1 (mkResetPassword "hack" "hack") = password2 (mkResetPassword "hack" "hack") ∧
  (routes.login sample.auth (mkForm "a@b.com" "123456789")
     (at_time (routes.reset_password sample.auth (mkResetPassword "hack" "hack")
                                     sample.access sample.w0).2 1100)).1 =
    Raise (HTTPException HTTP_401_UNAUTHORIZED "Invalid password" []).
Proof.
  assert (H1 : Auth.get_email_from_token sample.auth sample.access sample.w0 =
               (Ok (JStr "a@b.com"), sample.w0)) by (vm_compute; reflexivity).
  assert (H2 : db sample.w0 !! "a@b.com" = Some sample.alice)
    by (vm_compute; reflexivity).
  split; [exact sample_users_wf|]. split; [exact H1|]. split; [exact H2|].
  split; [reflexivity|]. split; [reflexivity|].
  destruct (reset_password_then_login sample.auth (mkResetPassword "hack" "hack")
              sample.access sample.w0 "a@b.com" sample.alice 1100 "123456789"
              sample_users_wf H1 H2 eq_refl eq_refl) as [_ Hold].
  apply Hold. vm_compute. reflexivity.
Defined.

Lemma refresh_token_unknown_subject_witness :
  (Auth.decode_refresh_token sample.auth sample_more.ghost_refresh sample.w0).1 =
    Ok (JStr "ghost@b.com") ∧
  db sample.w0 !! "ghost@b.com" = None ∧
  status_of (routes.refresh_token sample.auth sample_more.ghost_refresh sample.w0).1 =
    HTTP_500_INTERNAL_SERVER_ERROR.
Proof.
  assert (H1 : (Auth.decode_refresh_token sample.auth sample_more.ghost_refresh
                  sample.w0).1 = Ok (JStr "ghost@b.com")) by (vm_compute; reflexivity).
  assert (H2 : db sample.w0 !! "ghost@b.com" = None) by (vm_compute; reflexivity).
  split; [exact H1|]. split; [exact H2|].
  apply (refresh_token_unknown_subject sample.auth sample_more.ghost_refresh sample.w0
           "ghost@b.com" H1 H2).
Defined.

Lemma refresh_mismatch_locks_out_witness :
  db_wf (db sample.w1) ∧
  (Auth.decode_refresh_token sample.auth sample_more.later_refresh sample.w1).1 =
    Ok (JStr "a@b.com") ∧
  (Auth.decode_refresh_token sample.auth sample.refresh sample.w1).1 =
    Ok (JStr "a@b.com") ∧
  db sample.w1 !! "a@b.com" = Some (set_refresh_token sample.alice (Some sample.refresh)) ∧
  sample_more.later_refresh ≠ sample.refresh ∧
  status_of
    (routes.refresh_token sample.auth sample.refresh
       (at_time (routes.refresh_token sample.auth sample_more.later_refresh sample.w1).2
                1002)).1 = HTTP_401_UNAUTHORIZED.
Proof.
  assert (H1 : (Auth.decode_refresh_token sample.auth sample_more.later_refresh
                  sample.w1).1 = Ok (JStr "a@b.com")) by (vm_compute; reflexivity).
  assert (H2 : (Auth.decode_refresh_token sample.auth sample.refresh sample.w1).1 =
               Ok (JStr "a@b.com")) by (vm_compute; reflexivity).
  assert (H3 : sample_more.later_refresh ≠ sample.refresh) by (vm_compute; discriminate).
  split; [exact sample_w1_wf|]. split; [exact H1|]. split; [exact H2|].
  split; [exact sample_w1_alice|]. split; [exact H3|].
  apply (refresh_mismatch_locks_out sample.auth sample_more.later_refresh sample.refresh
           sample.w1 "a@b.com" _ 1002 sample_w1_wf H1 H2 sample_w1_alice eq_refl H3).
Defined.

Lemma request_email_for_known_user_witness :
  db sample.w0 !! body_email (mkRequestEmail "bob@b.com") = Some sample.bob ∧
  background_tasks
    (routes.request_email (mkRequestEmail "bob@b.com") "http://localhost:8000/"
                          sample.w0).2 =
    [send_email "bob@b.com" "bob" "http://localhost:8000/"].
Proof.
  assert (H1 : db sample.w0 !! body_email (mkRequestEmail "bob@b.com") = Some sample.bob)
    by (vm_compute; reflexivity).
  split; [exact H1|].
  destruct (request_email_for_known_user (mkRequestEmail "bob@b.com")
              "http://localhost:8000/" sample.w0 sample.bob H1) as (_ & _ & _ & Hnew).
  destruct (Hnew eq_refl) as [_ Htasks]. exact Htasks.
Defined.

Lemma signup_confirm_login_witness :
  ∃ res w1,
    db sample.w0 !! um_email sample_more.carol = None ∧
    signup sample.auth sample_more.carol "http://localhost:8000/" 3 sample.w0 =
      Some (res, w1) ∧
    Auth.verify_password sample.auth (um_password sample_more.carol)
      (Auth.get_password_hash sample.auth (um_password sample_more.carol)) = true ∧
    (Auth.create_email_token sample.auth {["sub" := JStr "carol@b.com"]}
       (at_time w1 1000)).1 = Ok sample_more.carol_token ∧
    2000 ≤ 1000 + 604800 ∧
    (routes.login sample.auth (mkForm "carol@b.com" "secret1") w1).1 =
      Raise (HTTPException HTTP_401_UNAUTHORIZED "Email not confirmed" []).
Proof.
  destruct (signup sample.auth sample_more.carol "http://localhost:8000/" 3 sample.w0)
    as [[res w1]|] eqn:Hsignup; [|vm_compute in Hsignup; discriminate].
  exists res, w1.
  assert (H1 : db sample.w0 !! um_email sample_more.carol = None)
    by (vm_compute; reflexivity).
  assert (H3 : Auth.verify_password sample.auth (um_password sample_more.carol)
                 (Auth.get_password_hash sample.auth (um_password sample_more.carol))
               = true) by (vm_compute; reflexivity).
  assert (H4 : (Auth.create_email_token sample.auth {["sub" := JStr "carol@b.com"]}
                  (at_time w1 1000)).1 = Ok sample_more.carol_token)
    by (vm_compute; reflexivity).
  assert (H5 : 2000 ≤ 1000 + 604800) by lia.
  split; [exact H1|]. split; [reflexivity|]. split; [exact H3|]. split; [exact H4|].
  split; [exact H5|].
  apply (signup_confirm_login sample.auth sample_more.carol "http://localhost:8000/" 3
           sample.w0 w1 res sample_more.carol_token 1000 2000 3000 H1 Hsignup H3 H4 H5).
Defined.


Lemma foreign_contact_is_not_found_witness :
  (∀ c, c ∈ sample_more.table → Contact.id c = 2 →
        Contact.user_id c ≠ Some (user_id sample.alice)) ∧
  status_of (contact_routes.get_contact 2 sample.alice sample_more.table) =
    HTTP_404_NOT_FOUND.
Proof.
  assert (H1 : ∀ c, c ∈ sample_more.table → Contact.id c = 2 →
                    Contact.user_id c ≠ Some (user_id sample.alice)).
  { intros c Hin Hid. unfold sample_more.table in Hin.
    repeat (apply elem_of_cons in Hin as [->|Hin]); try discriminate.
    by apply elem_of_nil in Hin. }
  split; [exact H1|].
  apply (foreign_contact_is_not_found sample.alice 2 sample_more.table H1).
Defined.

Lemma remove_contact_then_gone_witness :
  rep_contacts.get_contact 3 sample.alice sample_more.table = Some sample_more.cy ∧
  rep_contacts.get_contact 3 sample.alice
    (rep_contacts.remove_contact 3 sample.alice sample_more.table).2 = None.
Proof.
  assert (H1 : rep_contacts.get_contact 3 sample.alice sample_more.table =
               Some sample_more.cy) by (vm_compute; reflexivity).
  split; [exact H1|].
  apply (remove_contact_then_gone sample.alice 3 sample_more.table sample_more.cy H1).
Defined.

Lemma update_contact_then_get_witness :
  rep_contacts.get_contact 3 sample.alice sample_more.table = Some sample_more.cy ∧
  (ContactModel.email sample_more.dee ∉
     Contact.email <$> filter (λ r, Contact.id r ≠ 3) sample_more.table) ∧
  ∃ table',
    rep_contacts.update_contact sample_more.dee 3 sample.alice sample_more.table =
      Returns (Some (updated sample_more.dee sample_more.cy), table') ∧
    rep_contacts.get_contact 3 sample.alice table' =
      Some (updated sample_more.dee sample_more.cy).
Proof.
  assert (H1 : rep_contacts.get_contact 3 sample.alice sample_more.table =
               Some sample_more.cy) by (vm_compute; reflexivity).
  assert (H2 : ContactModel.email sample_more.dee ∉
               Contact.email <$> filter (λ r, Contact.id r ≠ 3) sample_more.table).
  { apply (bool_decide_unpack _). vm_compute. exact I. }
  split; [exact H1|]. split; [exact H2|].
  destruct (update_contact_then_get sample.alice sample_more.dee 3 sample_more.table
              sample_more.cy H1) as [_ Hfree].
  destruct (Hfree H2) as (table' & Hupd & _ & _ & _ & Hget & _).
  exists table'. split; [exact Hupd|exact Hget].
Defined.

Lemma create_contact_then_get_witness :
  (4 ∉ Contact.id <$> sample_more.table) ∧
  (ContactModel.email sample_more.dee ∉ Contact.email <$> sample_more.table) ∧
  ∃ c, rep_contacts.create_contact sample_more.dee sample.alice 4 sample_more.table =
         Returns (c, (sample_more.table ++ [c])%list) ∧
       rep_contacts.get_contact 4 sample.alice (sample_more.table ++ [c])%list = Some c.
Proof.
  assert (H1 : 4 ∉ Contact.id <$> sample_more.table).
  { apply (bool_decide_unpack _). vm_compute. exact I. }
  assert (H2 : ContactModel.email sample_more.dee ∉ Contact.email <$> sample_more.table).
  { apply (bool_decide_unpack _). vm_compute. exact I. }
  split; [exact H1|]. split; [exact H2|].
  destruct (create_contact_then_get sample.alice sample_more.dee 4 sample_more.table H1)
    as [_ Hfree].
  destruct (Hfree H2) as (Hcreate & Hget & _).
  eexists. split; [exact Hcreate|exact Hget].
Defined.

Lemma sample_table_ok : table_ok sample_more.table.
Proof.
  split; apply (bool_decide_unpack _); vm_compute; exact I.
Qed.

Lemma contact_writes_are_isolated_witness :
  NoDup (Contact.id <$> sample_more.table) ∧
  filter (λ x, rep_contacts.owned_by sample.alice x = false)
         (rep_contacts.remove_contact 3 sample.alice sample_more.table).2 =
  filter (λ x, rep_contacts.owned_by sample.alice x = false) sample_more.table.
Proof.
  split; [exact (proj1 sample_table_ok)|].
  destruct (contact_writes_are_isolated sample.alice sample_more.table
              (proj1 sample_table_ok)) as (_ & _ & Hremove).
  apply Hremove.
Defined.

Lemma contact_writes_keep_constraints_witness :
  table_ok sample_more.table ∧
  table_ok (rep_contacts.remove_contact 3 sample.alice sample_more.table).2.
Proof.
  split; [exact sample_table_ok|].
  destruct (contact_writes_keep_constraints sample.alice sample_more.table
              sample_table_ok) as (_ & _ & Hremove).
  apply Hremove.
Defined.

Lemma leap_day_birthday_raises_witness :
  sample_more.ann ∈ sample_more.table ∧
  Contact.user_id sample_more.ann = Some (user_id sample.alice) ∧
  month (Contact.birthday sample_more.ann) = 2 ∧
  day (Contact.birthday sample_more.ann) = 29 ∧
  is_leap (year (mkDate 2025 5 18)) = false ∧
  rep_contacts.get_upcoming_birthdays (mkDate 2025 5 18) sample.alice sample_more.table =
    Raises "ValueError".
Proof.
  assert (H1 : sample_more.ann ∈ sample_more.table) by apply list_elem_of_here.
  split; [exact H1|]. repeat (split; [reflexivity|]).
  apply (leap_day_birthday_raises (mkDate 2025 5 18) sample.alice sample_more.table
           sample_more.ann H1 eq_refl eq_refl eq_refl eq_refl).
Defined.

Lemma upcoming_birthdays_window_witness :
  rep_contacts.get_upcoming_birthdays (mkDate 2024 5 20) sample.alice sample_more.table =
    Returns [sample_more.cy] ∧
  sample_more.cy ∈ [sample_more.cy] ∧
  sample_more.ann ∉ [sample_more.cy].
Proof.
  assert (H1 : rep_contacts.get_upcoming_birthdays (mkDate 2024 5 20) sample.alice
                 sample_more.table = Returns [sample_more.cy])
    by (vm_compute; reflexivity).
  split; [exact H1|].
  split.
  - destruct (upcoming_birthdays_window (mkDate 2024 5 20) sample.alice sample_more.table
                [sample_more.cy] sample_more.cy H1) as (_ & Htoday & _).
    apply Htoday; [|reflexivity..].
    do 2 apply list_elem_of_further. apply list_elem_of_here.
  - destruct (upcoming_birthdays_window (mkDate 2024 5 20) sample.alice sample_more.table
                [sample_more.cy] sample_more.ann H1) as (_ & _ & Hpast).
    apply Hpast. left. vm_compute. reflexivity.
Defined.
